(** * pysrpm.convert: PEP 508 markers and PEP 440 specifiers as RPM conditions

    A shallow embedding of [src/pysrpm/convert.py] and the properties of its
    three functions: [_single_marker_to_rpm_condition] (the leaf translator),
    [simplify_marker_to_rpm_condition] (the marker evaluator with its DNF
    reduction) and [specifier_to_rpm_version] (the specifier translator). *)

From stdpp Require Import base option list strings gmap.

Local Open Scope string_scope.
Local Open Scope list_scope.

(** ** Python values, exceptions and the string built-ins the module uses *)

(** The exceptions that can leave the module.  The three [raise ValueError]
    sites of [_single_marker_to_rpm_condition] are told apart by their
    message; the constructors keep the interpolated parts of the message.
    - [UnsupportedOperator op "platform_machine"] is
      [ValueError(f'Unsupported operator {operator} for platform_machine')],
    - [UnsupportedOperator op "dependency marker"] is
      [ValueError(f'Unsupported operator {operator} for dependency marker {marker}')],
    - [UnsupportedMarkerVariable v] is [ValueError(f'Unsupported marker {v}')],
    - [TypeError] is what [str.join] raises on a non-string item or a
      non-iterable argument,
    - [MarkerError] stands for whatever the packaging library raises while
      parsing or evaluating a marker,
    - [FormatError] is what [str.format] raises on the architecture
      template: [KeyError] for a field other than [arch], [ValueError] for a
      stray brace, [IndexError] for a positional field. *)
Inductive format_exn :=
| FormatKeyError (key : string)
| FormatValueError (msg : string)
| FormatIndexError.

Inductive exn :=
| UnsupportedOperator (operator context : string)
| UnsupportedMarkerVariable (variable : string)
| TypeError
| MarkerError (msg : string)
| FormatError (e : format_exn).

Inductive result (A : Type) :=
| Ok (a : A)
| Raise (e : exn).
Arguments Ok {A} a.
Arguments Raise {A} e.

#[global] Instance result_ret : MRet result := fun A a => Ok a.
#[global] Instance result_bind : MBind result := fun A B f m =>
  match m with
  | Ok a => f a
  | Raise e => Raise e
  end.
#[global] Instance result_fmap : FMap result := fun A B f m =>
  match m with
  | Ok a => Ok (f a)
  | Raise e => Raise e
  end.

(** What the evaluator hands back and what flows through the DNF reduction:
    [None], a [bool], a [str], or a [list] of those. *)
#[warnings="-register-all"]
Inductive value :=
| VNone
| VBool (b : bool)
| VStr (s : string)
| VList (l : list value).

(** [v is True], [v is False], [v == s] for a string literal [s]. *)
Definition is_True (v : value) : bool :=
  match v with VBool true => true | _ => false end.
Definition is_False (v : value) : bool :=
  match v with VBool false => true | _ => false end.
Definition str_eq (s : string) (v : value) : bool :=
  match v with VStr t => String.eqb t s | _ => false end.

(** Iterating a [str] yields its characters as one-character strings. *)
Fixpoint chars (s : string) : list string :=
  match s with
  | EmptyString => []
  | String c r => String c EmptyString :: chars r
  end.

Definition as_str (v : value) : result string :=
  match v with
  | VStr s => Ok s
  | _ => Raise TypeError
  end.

Fixpoint mapM {A B : Type} (f : A → result B) (l : list A) : result (list B) :=
  match l with
  | [] => Ok []
  | x :: r => y ← f x; ys ← mapM f r; Ok (y :: ys)
  end.

(** What a call of [str.format] gives: the formatted text, or one of the
    exceptions of [str.format]. *)
Inductive format_result :=
| Formatted (s : string)
| FormatRaises (e : format_exn).

Definition format_outcome (r : format_result) : result string :=
  match r with
  | Formatted s => Ok s
  | FormatRaises e => Raise (FormatError e)
  end.

(** [sep.join(it)]: a [str] argument is iterated character by character, a
    list must hold strings only, anything else is not iterable. *)
Definition str_join (sep : string) (it : value) : result string :=
  match it with
  | VStr s => Ok (String.concat sep (chars s))
  | VList l => items ← mapM as_str l; Ok (String.concat sep items)
  | _ => Raise TypeError
  end.

(** [c in chars] for a character [c]. *)
Fixpoint char_in (c : Ascii.ascii) (cs : string) : bool :=
  match cs with
  | EmptyString => false
  | String d r => Ascii.eqb c d || char_in c r
  end.

(** [s.rstrip(cs)]: drops every trailing character that belongs to the
    character set [cs]. *)
Fixpoint rstrip (cs s : string) : string :=
  match s with
  | EmptyString => EmptyString
  | String c r =>
      match rstrip cs r with
      | EmptyString => if char_in c cs then EmptyString else String c EmptyString
      | r' => String c r'
      end
  end.

(** [s.removesuffix(suf)], the operation [rstrip] is often mistaken for;
    used only to state what stripping the wildcard suffix means. *)
Fixpoint removesuffix (suf s : string) : string :=
  if String.eqb s suf then EmptyString
  else match s with
       | EmptyString => EmptyString
       | String c r => String c (removesuffix suf r)
       end.

(** The whitespace of [str.split()].  A character of the model is a code
    point below 256; among those Python's whitespace is 9 to 13, 28 to 32,
    133 (next line) and 160 (no-break space). *)
Definition is_space (c : Ascii.ascii) : bool :=
  let n := Ascii.nat_of_ascii c in
  ((9 <=? n)%nat && (n <=? 13)%nat) || ((28 <=? n)%nat && (n <=? 32)%nat)
  || (n =? 133)%nat || (n =? 160)%nat.

(** [s.split()]: the maximal runs of non-whitespace characters. *)
Fixpoint split_from (word s : string) : list string :=
  match s with
  | EmptyString => if String.eqb word "" then [] else [word]
  | String c r =>
      if is_space c
      then (if String.eqb word "" then split_from "" r else word :: split_from "" r)
      else split_from (word +:+ String c EmptyString) r
  end.
Definition str_split (s : string) : list string := split_from "" s.

(** [enumerate(l)] *)
Fixpoint enumerate_from {A : Type} (n : nat) (l : list A) : list (nat * A) :=
  match l with
  | [] => []
  | x :: r => (n, x) :: enumerate_from (S n) r
  end.
Definition enumerate {A : Type} (l : list A) : list (nat * A) := enumerate_from 0 l.

(** [l[slice(start, last)]] for a start that is not negative; [last] is an
    index that is not negative, or [None] for the end of the list. *)
Definition slice {A : Type} (l : list A) (start : Z) (last : option nat) : list A :=
  match last with
  | Some e => take (e - Z.to_nat start) (drop (Z.to_nat start) l)
  | None => drop (Z.to_nat start) l
  end.

(** ** Data model *)

(** The marker structure the evaluator dispatches on: [None], a [Marker]
    instance (whose [_markers] list is taken), a [str], a [bool], a tuple
    [(Variable, Op, Value)] given by the three [.value] strings, a list. *)
#[warnings="-register-all"]
Inductive marker_tree :=
| MNone
| MMarker (_markers : list marker_tree)
| MStr (s : string)
| MBool (b : bool)
| MTuple (variable operator value : string)
| MList (l : list marker_tree).

(** An environment entry is a single string or a list of candidate strings. *)
Inductive env_value :=
| EStr (s : string)
| EList (l : list string).

(** The template dictionary with its two entries. *)
Record templates := { python_abi : string; python_arch : string }.

(** A [packaging.specifiers.Specifier]: its [operator] and [version]. *)
Record Specifier := { operator : string; version : string }.

Definition _rpm_operator_correspondance : gmap string string :=
  {[ "==" := "="; "===" := "="; "<" := "<"; "<=" := "<="; ">=" := ">="; ">" := ">" ]}.

Section Convert.

(** The packaging library: [Marker_parse var op val] is the construction
    [evaluator = Marker(f'{var} {op} "{val}"')], which raises on text that is
    not a marker, and [Marker_evaluate var op val environment] is
    [evaluator.evaluate(environment)] on that object. *)
Variable Marker_parse : string → string → string → result unit.
Variable Marker_evaluate :
  string → string → string → gmap string env_value → result bool.

(** [template.format(arch=a)], which raises on a template with another
    field or a stray brace. *)
Variable format_arch : string → string → format_result.

Definition _single_marker_to_rpm_condition
    (marker : string * string * string) (tmpl : templates) : result string :=
  let '(variable, operator, version) := marker in
  if String.eqb variable "platform_machine" then
    let arch_template := python_arch tmpl in
    if String.eqb operator "==" then
      formatted ← format_outcome (format_arch arch_template version);
      Ok ("if " +:+ formatted)
    else if String.eqb operator "!=" then
      formatted ← format_outcome (format_arch arch_template version);
      Ok ("without " +:+ formatted)
    else if String.eqb operator "in" then
      formatted ← mapM (fun arch => format_outcome (format_arch arch_template arch))
                       (str_split version);
      Ok ("if (" +:+ String.concat " or " formatted +:+ ")")
    else Raise (UnsupportedOperator operator "platform_machine")
  else
    package ←
      (if String.eqb variable "python_full_version"
          || String.eqb variable "python_version"
          || String.eqb variable "implementation_version"
       then Ok (python_abi tmpl)
       else if String.eqb variable "platform_release" then Ok "kernel"
       else Raise (UnsupportedMarkerVariable variable));
    match _rpm_operator_correspondance !! operator with
    | Some rpm_op => Ok (package +:+ " " +:+ rpm_op +:+ " " +:+ version)
    | None =>
        if String.eqb operator "~=" then
          Ok ("(" +:+ package +:+ " >= " +:+ version +:+ " and "
              +:+ package +:+ " < " +:+ version +:+ "^next)")
        else if String.eqb operator "!=" then
          Ok ("(" +:+ package +:+ " < " +:+ version +:+ " or "
              +:+ package +:+ " > " +:+ version +:+ ")")
        else if String.eqb operator "in" then
          Ok ("(" +:+
              String.concat " or "
                (map (fun each_version => package +:+ " = " +:+ each_version)
                     (str_split version))
              +:+ ")")
        else Raise (UnsupportedOperator operator "dependency marker")
    end.

(** [v == 'or'] on an element of the marker list. *)
Definition marker_str_eq (s : string) (v : marker_tree) : bool :=
  match v with MStr t => String.eqb t s | _ => false end.

(** The list branch after the recursive calls, statement by statement:
    [marker] is the list as given, [simple_markers] the results for its
    elements.  [dnf_clauses] is the first comprehension (the slices between
    the positions of ['or'], without ['and'] and [True]). *)
Definition dnf_clauses (marker : list marker_tree) (simple_markers : list value)
    : list (list value) :=
  let splits :=
    map fst (List.filter (fun nv => marker_str_eq "or" (snd nv)) (enumerate marker)) in
  map (fun bl : Z * option nat =>
         List.filter (fun mk => negb (str_eq "and" mk) && negb (is_True mk))
                     (slice simple_markers (fst bl + 1) (snd bl)))
      (zip ((-1)%Z :: map Z.of_nat splits) (map Some splits ++ [None])).

(** The second comprehension: clauses with a [False] are left out, an empty
    clause is [True], a one-element clause is its element. *)
Definition dnf_promote (dnf : list (list value)) : list value :=
  map (fun cl => match cl with
                 | [] => VBool true
                 | [mk] => mk
                 | _ => VList cl
                 end)
      (List.filter (fun cl => negb (existsb is_False cl)) dnf).

(** The returned conditional expression. *)
Definition dnf_render (dnf : list value) : result value :=
  match dnf with
  | [] => Ok (VBool false)
  | _ =>
      if existsb is_True dnf then Ok (VBool true)
      else match dnf with
           | [cl] => VStr <$> str_join " and " cl
           | _ =>
               items ← mapM (fun mk => match mk with
                                       | VList _ => VStr <$> str_join " and " mk
                                       | _ => Ok mk
                                       end) dnf;
               joined ← str_join " or " (VList items);
               Ok (VStr ("(" +:+ joined +:+ ")"))
           end
  end.

Definition reduce_dnf (marker : list marker_tree) (simple_markers : list value)
    : result value :=
  dnf_render (dnf_promote (dnf_clauses marker simple_markers)).

Fixpoint simplify_marker_to_rpm_condition
    (marker : marker_tree) (environments : gmap string env_value) (tmpl : templates)
    {struct marker} : result value :=
  let simplify_list :=
    fix simplify_list (l : list marker_tree) : result (list value) :=
      match l with
      | [] => Ok []
      | mk :: r =>
          v ← simplify_marker_to_rpm_condition mk environments tmpl;
          vs ← simplify_list r;
          Ok (v :: vs)
      end in
  match marker with
  | MNone => Ok (VBool true)
  | MMarker l | MList l =>
      simple_markers ← simplify_list l;
      reduce_dnf l simple_markers
  | MStr s =>
      if String.eqb s "or" || String.eqb s "and" then Ok (VStr s) else Ok VNone
  | MBool b => Ok (VBool b)
  | MTuple variable operator value =>
      let env := variable in
      match environments !! env with
      | None =>
          VStr <$> _single_marker_to_rpm_condition (variable, operator, value) tmpl
      | Some candidates =>
          _ ← Marker_parse variable operator value;
          evaluations ←
            match candidates with
            | EList l =>
                mapM (fun val =>
                        Marker_evaluate variable operator value {[ env := EStr val ]}) l
            | EStr _ =>
                ev ← Marker_evaluate variable operator value environments; Ok [ev]
            end;
          if forallb id evaluations then Ok (VBool true)
          else if forallb negb evaluations then Ok (VBool false)
          else if String.eqb env "extras" then Ok (VBool true)
          else VStr <$> _single_marker_to_rpm_condition (variable, operator, value) tmpl
      end
  end.

End Convert.

(** ** The specifier translator *)

(** One turn of the loop body of [specifier_to_rpm_version]: the list
    [rpm_specs] after the [append] or [extend] for [spec]. *)
Definition specifier_step (package : string) (rpm_specs : list string) (spec : Specifier)
    : list string :=
  let version := rstrip ".*" (version spec) in
  match _rpm_operator_correspondance !! operator spec with
  | Some rpm_op => rpm_specs ++ [package +:+ " " +:+ rpm_op +:+ " " +:+ version]
  | None =>
      if String.eqb (operator spec) "~=" then
        rpm_specs ++ [package +:+ " >= " +:+ version;
                      package +:+ " < " +:+ version +:+ "^zzz"]
      else if String.eqb (operator spec) "!=" then
        rpm_specs ++ ["(" +:+ package +:+ " < " +:+ version +:+ " or "
                      +:+ package +:+ " > " +:+ version +:+ ")"]
      else rpm_specs
  end.

(** [version] is the specifier set in its iteration order. *)
Definition specifier_to_rpm_version (package : string) (version : list Specifier) : string :=
  let rpm_specs := fold_left (specifier_step package) version [] in
  match rpm_specs with
  | [] => package
  | _ => String.concat ", " rpm_specs
  end.

(** ** Notions of the specification, used to state the properties *)

(** The clauses one specifier contributes: the loop body run on an empty
    accumulator. *)
Definition specifier_clauses (package : string) (spec : Specifier) : list string :=
  specifier_step package [] spec.

(** The eight operators of a PEP 440 specifier. *)
Definition specifier_operators : list string :=
  ["=="; "==="; "<"; "<="; ">="; ">"; "~="; "!="].

(** The variables of the interpreter-version category. *)
Definition version_variables : list string :=
  ["python_full_version"; "python_version"; "implementation_version"].

(** The package token of a variable of the interpreter-version or kernel
    release category. *)
Definition package_token (tmpl : templates) (variable : string) : option string :=
  if bool_decide (variable ∈ version_variables) then Some (python_abi tmpl)
  else if bool_decide (variable = "platform_release") then Some "kernel"
  else None.

(** Section 4.1 of the specification: the comparisons the leaf translator
    has an RPM rendering for. *)
Definition supported_comparison (variable operator : string) : bool :=
  if bool_decide (variable = "platform_machine")
  then bool_decide (operator ∈ ["=="; "!="; "in"])
  else if bool_decide (variable ∈ version_variables ++ ["platform_release"])
  then bool_decide (operator ∈ ["=="; "==="; "<"; "<="; ">="; ">"; "~="; "!="; "in"])
  else false.

(** The comparison [var op "val"] evaluates to [b] when the variable has
    the candidate value [c]. *)
Definition holds_on
    (Marker_evaluate : string → string → string → gmap string env_value → result bool)
    (var op val c : string) (b : bool) : Prop :=
  Marker_evaluate var op val {[ var := EStr c ]} = Ok b.

(** Section 4.2 of the specification, step 5.  The evaluated sequence is cut
    at the ["or"] connectives of the group into maximal runs. *)
Fixpoint spec_clauses (marker : list marker_tree) (simple_markers : list value)
    : list (list value) :=
  match marker, simple_markers with
  | m :: ms, v :: vs =>
      if marker_str_eq "or" m then [] :: spec_clauses ms vs
      else match spec_clauses ms vs with
           | cl :: cls => (v :: cl) :: cls
           | [] => [[v]]
           end
  | _, _ => [[]]
  end.

(** Within a clause the [true] constants and the ["and"] tokens are dropped. *)
Definition spec_clean (cl : list value) : list value :=
  List.filter (fun mk => negb (str_eq "and" mk) && negb (is_True mk)) cl.

(** A clause with a [false] element is discarded; the others survive. *)
Definition spec_surviving (marker : list marker_tree) (simple_markers : list value)
    : list (list value) :=
  List.filter (fun cl => negb (existsb is_False cl))
              (map spec_clean (spec_clauses marker simple_markers)).

(** An emptied clause becomes [true], a clause of one element becomes that
    element, a longer clause is kept as a group. *)
Definition spec_promote (cl : list value) : value :=
  match cl with
  | [] => VBool true
  | [mk] => mk
  | _ => VList cl
  end.

(** The slices [simple[start:e1]], [simple[e1+1:e2]], ..., [simple[en+1:]]
    for the split positions [e1, ..., en]. *)
Fixpoint slices_from {A : Type} (simple : list A) (start : nat) (splits : list nat)
    : list (list A) :=
  match splits with
  | [] => [drop start simple]
  | e :: splits => take (e - start) (drop start simple) :: slices_from simple (S e) splits
  end.

(** ** A small stand-in for the packaging library and for [str.format]

    Used only to run the functions on concrete inputs: markers compare text
    with [==] and [!=], and a template has its [{arch}] fields replaced. *)

Definition text_parse (variable op value : string) : result unit :=
  if String.eqb op "==" || String.eqb op "!=" then Ok ()
  else Raise (MarkerError "invalid marker").

Definition text_evaluate (variable op value : string)
    (environment : gmap string env_value) : result bool :=
  match environment !! variable with
  | Some (EStr s) =>
      if String.eqb op "==" then Ok (String.eqb s value)
      else if String.eqb op "!=" then Ok (negb (String.eqb s value))
      else Raise (MarkerError "undefined comparison")
  | _ => Raise (MarkerError "undefined environment name")
  end.

(** The name of a replacement field: the text up to the closing brace. *)
Fixpoint field_name (s : string) : option string :=
  match s with
  | EmptyString => None
  | String c r =>
      if String.prefix "}" s then Some EmptyString
      else match field_name r with
           | Some name => Some (String c name)
           | None => None
           end
  end.

Definition format_prepend (text : string) (r : format_result) : format_result :=
  match r with
  | Formatted s => Formatted (text +:+ s)
  | FormatRaises e => FormatRaises e
  end.

(** [template.format(arch=arch)] for templates of plain text and fields with
    a plain name: the field [{arch}] is replaced, another field is a
    [KeyError] on its name, a brace that opens or closes no field is a
    [ValueError].  [skip] characters are passed over first. *)
Fixpoint text_format_from (skip : nat) (template arch : string) : format_result :=
  match template with
  | EmptyString => Formatted EmptyString
  | String c r =>
      match skip with
      | S k => text_format_from k r arch
      | O =>
          if String.prefix "{arch}" template
          then format_prepend arch (text_format_from 5 r arch)
          else if String.prefix "{" template
          then match field_name r with
               | Some name => FormatRaises (FormatKeyError name)
               | None => FormatRaises (FormatValueError "expected '}' before end of string")
               end
          else if String.prefix "}" template
          then FormatRaises (FormatValueError "Single '}' encountered in format string")
          else format_prepend (String c EmptyString) (text_format_from 0 r arch)
      end
  end.
Definition text_format (template arch : string) : format_result :=
  text_format_from 0 template arch.

(** As [text_evaluate], but an empty value of the variable is refused. *)
Definition strict_evaluate (variable op value : string)
    (environment : gmap string env_value) : result bool :=
  match environment !! variable with
  | Some (EStr EmptyString) => Raise (MarkerError "invalid version")
  | _ => text_evaluate variable op value environment
  end.

Definition example_templates : templates :=
  {| python_abi := "pythonabi"; python_arch := "arch({arch})" |}.

(** Templates whose architecture template has a field that [format] is not
    given. *)
Definition name_templates : templates :=
  {| python_abi := "pythonabi"; python_arch := "{name}-{arch}" |}.

(** The two entry points on the stand-in. *)
Abbreviation run_leaf := (_single_marker_to_rpm_condition text_format).
Abbreviation run :=
  (simplify_marker_to_rpm_condition text_parse text_evaluate text_format).

(** ** Further notions, for the properties beyond the specification *)

(** A word of [str.split()]: not empty, no whitespace. *)
Fixpoint no_space (w : string) : bool :=
  match w with
  | EmptyString => true
  | String c r => negb (is_space c) && no_space r
  end.
Definition is_word (w : string) : bool := negb (String.eqb w "") && no_space w.

(** Every character of [s] belongs to the character set [cs]. *)
Fixpoint all_chars_in (cs s : string) : bool :=
  match s with
  | EmptyString => true
  | String c r => char_in c cs && all_chars_in cs r
  end.

Fixpoint last_char (s : string) : option Ascii.ascii :=
  match s with
  | EmptyString => None
  | String c EmptyString => Some c
  | String _ r => last_char r
  end.

(** The documented return type of the evaluator: [str] or [bool]. *)
Definition is_bool_or_str (v : value) : bool :=
  match v with
  | VBool _ | VStr _ => true
  | _ => false
  end.

(** The truth value of a flat sequence of booleans and connectives, ["and"]
    binding tighter than ["or"]: [acc] is the value of the conjunction read
    so far. *)
Fixpoint or_of_ands (simple : list value) (acc : bool) : bool :=
  match simple with
  | [] => acc
  | v :: rest =>
      if str_eq "or" v then acc || or_of_ands rest true
      else match v with
           | VBool b => or_of_ands rest (acc && b)
           | _ => or_of_ands rest acc
           end
  end.

(** The environment variables a marker compares. *)
Fixpoint marker_variables (marker : marker_tree) : list string :=
  match marker with
  | MTuple variable _ _ => [variable]
  | MMarker l | MList l =>
      (fix variables_of (l : list marker_tree) : list string :=
         match l with
         | [] => []
         | mk :: r => marker_variables mk ++ variables_of r
         end) l
  | _ => []
  end.

(** The rendering of surviving clauses that hold strings only, case by
    case: the last three lines of the list branch. *)
Definition rendered (sss : list (list string)) : value :=
  match sss with
  | [] => VBool false
  | _ =>
      if existsb (fun ss => bool_decide (ss = [])) sss then VBool true
      else match sss with
           | [[s]] => VStr (String.concat " and " (chars s))
           | [ss] => VStr (String.concat " and " ss)
           | _ => VStr ("(" +:+ String.concat " or " (map (String.concat " and ") sss)
                        +:+ ")")
           end
  end.

(** An element of a group of constants with its result: a connective that
    passes through, or a sub-expression that folds to a boolean. *)
Definition constant_element (mk : marker_tree) (v : value) : Prop :=
  (mk = MStr "and" ∧ v = VStr "and")
  ∨ (mk = MStr "or" ∧ v = VStr "or")
  ∨ (marker_str_eq "or" mk = false ∧ ∃ b, v = VBool b).

(** ** Helper lemmas *)

(** Membership in a list of string literals, as a goal and as a hypothesis. *)
Ltac in_list :=
  repeat first [apply list_elem_of_here | apply list_elem_of_further].
Ltac in_cases H :=
  repeat (apply elem_of_cons in H as [->|H]; [in_list|]);
  by apply elem_of_nil in H.
Ltac not_in_list :=
  let H := fresh in
  intros H; repeat (apply elem_of_cons in H as [H|H]; [discriminate|]);
  by apply elem_of_nil in H.


Lemma rpm_operator_lookup (op : string) :
  _rpm_operator_correspondance !! op =
    if bool_decide (op ∈ ["=="; "==="]) then Some "="
    else if bool_decide (op ∈ ["<"; "<="; ">="; ">"]) then Some op
    else None.
Proof.
  unfold _rpm_operator_correspondance.
  repeat match goal with
         | |- <[ ?k := _ ]> _ !! _ = _ =>
             destruct (decide (op = k)) as [->|];
             [vm_compute; reflexivity | rewrite (lookup_insert_ne _ k op) by done]
         end.
  destruct (decide (op = ">")) as [->|]; [vm_compute; reflexivity|].
  rewrite lookup_singleton_ne by done.
  rewrite !bool_decide_eq_false_2; [done| |]; intros Hin;
    repeat (apply elem_of_cons in Hin as [->|Hin]; [done|]);
    by apply elem_of_nil in Hin.
Qed.

Lemma specifier_step_acc (package : string) (acc : list string) (spec : Specifier) :
  specifier_step package acc spec = acc ++ specifier_clauses package spec.
Proof.
  unfold specifier_clauses, specifier_step.
  destruct (_rpm_operator_correspondance !! operator spec); [reflexivity|].
  repeat case_match; try reflexivity.
  by rewrite app_nil_r.
Qed.

Lemma specifier_fold (package : string) (specs : list Specifier) (acc : list string) :
  fold_left (specifier_step package) specs acc
  = acc ++ List.concat (map (specifier_clauses package) specs).
Proof.
  revert acc. induction specs as [|spec specs IH]; intros acc; simpl.
  - by rewrite app_nil_r.
  - rewrite IH, specifier_step_acc. by rewrite <- app_assoc.
Qed.

Lemma specifier_to_rpm_version_clauses (package : string) (specs : list Specifier) :
  specifier_to_rpm_version package specs =
    match List.concat (map (specifier_clauses package) specs) with
    | [] => package
    | clauses => String.concat ", " clauses
    end.
Proof.
  unfold specifier_to_rpm_version. rewrite specifier_fold, app_nil_l.
  by destruct (List.concat _).
Qed.

Lemma specifier_clauses_direct (package op v : string) :
  op ∈ ["=="; "==="] →
  specifier_clauses package {| operator := op; version := v |}
  = [package +:+ " = " +:+ rstrip ".*" v].
Proof.
  intros Hop. unfold specifier_clauses, specifier_step; simpl.
  rewrite rpm_operator_lookup. by rewrite bool_decide_eq_true_2.
Qed.

Lemma specifier_clauses_compatible (package v : string) :
  specifier_clauses package {| operator := "~="; version := v |}
  = [package +:+ " >= " +:+ rstrip ".*" v;
     package +:+ " < " +:+ rstrip ".*" v +:+ "^zzz"].
Proof. reflexivity. Qed.

Lemma specifier_clauses_unrecognized (package : string) (spec : Specifier) :
  operator spec ∉ specifier_operators →
  specifier_clauses package spec = [].
Proof.
  intros Hop. unfold specifier_clauses, specifier_step.
  rewrite rpm_operator_lookup.
  rewrite !bool_decide_eq_false_2; [| intros Hin; apply Hop; in_cases Hin ..].
  destruct (String.eqb_spec (operator spec) "~=") as [E|_].
  { exfalso. apply Hop. rewrite E. in_list. }
  destruct (String.eqb_spec (operator spec) "!=") as [E|_]; [|done].
  exfalso. apply Hop. rewrite E. in_list.
Qed.

(** Where the character-set semantics of [rstrip] and the removal of the
    suffix agree: the text before the wildcard does not itself end in a dot
    or a star. *)
Lemma rstrip_wildcard (c : Ascii.ascii) (base : string) :
  char_in c ".*" = false →
  rstrip ".*" (base +:+ String c ".*") = base +:+ String c "".
Proof.
  intros Hc. induction base as [|d base IH].
  - simpl in *. by rewrite Hc.
  - change (rstrip ".*" (String d (base +:+ String c ".*"))
            = String d (base +:+ String c "")).
    cbn [rstrip]. rewrite IH. by destruct base.
Qed.

(** ** The leaf translator *)

Section LeafTranslator.

Context (format_arch : string → string → format_result).
Abbreviation leaf := (_single_marker_to_rpm_condition format_arch).

Lemma package_token_cases (tmpl : templates) (variable pkg : string) :
  package_token tmpl variable = Some pkg →
  (variable ∈ version_variables ∧ pkg = python_abi tmpl)
  ∨ (variable = "platform_release" ∧ pkg = "kernel").
Proof.
  unfold package_token. repeat case_bool_decide; naive_solver.
Qed.

(** On a variable with a package token the translator only looks at the
    operator. *)
Lemma leaf_with_package (tmpl : templates) (variable op value pkg : string) :
  package_token tmpl variable = Some pkg →
  leaf (variable, op, value) tmpl =
    match _rpm_operator_correspondance !! op with
    | Some rpm_op => Ok (pkg +:+ " " +:+ rpm_op +:+ " " +:+ value)
    | None =>
        if String.eqb op "~=" then
          Ok ("(" +:+ pkg +:+ " >= " +:+ value +:+ " and "
              +:+ pkg +:+ " < " +:+ value +:+ "^next)")
        else if String.eqb op "!=" then
          Ok ("(" +:+ pkg +:+ " < " +:+ value +:+ " or "
              +:+ pkg +:+ " > " +:+ value +:+ ")")
        else if String.eqb op "in" then
          Ok ("(" +:+
              String.concat " or "
                (map (fun each_version => pkg +:+ " = " +:+ each_version)
                     (str_split value))
              +:+ ")")
        else Raise (UnsupportedOperator op "dependency marker")
    end.
Proof.
  intros [[Hv ->]|[-> ->]]%package_token_cases; [|reflexivity].
  unfold version_variables in Hv.
  repeat (apply elem_of_cons in Hv as [->|Hv]; [reflexivity|]).
  by apply elem_of_nil in Hv.
Qed.

Lemma package_token_supported (tmpl : templates) (variable : string) :
  variable ∈ version_variables ++ ["platform_release"] →
  variable ≠ "platform_machine" ∧ ∃ pkg, package_token tmpl variable = Some pkg.
Proof.
  intros Hv. unfold version_variables in Hv. simpl in Hv.
  repeat (apply elem_of_cons in Hv as [->|Hv]; [split; [done|by eexists]|]).
  by apply elem_of_nil in Hv.
Qed.

Lemma leaf_unsupported (tmpl : templates) (variable op value : string) :
  supported_comparison variable op = false →
  leaf (variable, op, value) tmpl =
    Raise (if bool_decide (variable = "platform_machine")
           then UnsupportedOperator op "platform_machine"
           else if bool_decide (variable ∈ version_variables ++ ["platform_release"])
           then UnsupportedOperator op "dependency marker"
           else UnsupportedMarkerVariable variable).
Proof.
  unfold supported_comparison. intros Hs.
  case_bool_decide as Hpm.
  - subst variable. apply bool_decide_eq_false_1 in Hs.
    unfold _single_marker_to_rpm_condition.
    change (String.eqb "platform_machine" "platform_machine") with true. cbv iota.
    repeat match goal with
           | |- context [String.eqb op ?k] =>
               destruct (String.eqb_spec op k) as [->|_]; [exfalso; apply Hs; in_list|]
           end.
    reflexivity.
  - case_bool_decide as Hv.
    + apply bool_decide_eq_false_1 in Hs.
      destruct (package_token_supported tmpl _ Hv) as [_ [pkg Hpkg]].
      rewrite (leaf_with_package _ _ _ _ _ Hpkg), rpm_operator_lookup.
      rewrite !bool_decide_eq_false_2;
        [| intros Hin; apply Hs; in_cases Hin ..].
      repeat match goal with
             | |- context [String.eqb op ?k] =>
                 destruct (String.eqb_spec op k) as [->|_]; [exfalso; apply Hs; in_list|]
             end.
      reflexivity.
    + unfold _single_marker_to_rpm_condition.
      repeat match goal with
             | |- context [String.eqb variable ?k] =>
                 destruct (String.eqb_spec variable k) as [->|_];
                 [first [done | exfalso; apply Hv; unfold version_variables; simpl; in_list]|]
             end.
      reflexivity.
Qed.




End LeafTranslator.

(** ** The marker evaluator on a single comparison *)

Lemma mapM_Forall2 {A B : Type} (f : A → result B) (l : list A) (bs : list B) :
  Forall2 (fun a b => f a = Ok b) l bs → mapM f l = Ok bs.
Proof.
  induction 1 as [|a b l bs Hab _ IH]; simpl; [done|].
  by rewrite Hab, IH.
Qed.

Lemma all_Ok_Forall2 {A B : Type} (f : A → result B) (l : list A) :
  (∀ a, a ∈ l → ∃ b, f a = Ok b) → ∃ bs, Forall2 (fun a b => f a = Ok b) l bs.
Proof.
  induction l as [|a l IH]; intros Hall.
  - exists []. constructor.
  - destruct (Hall a) as [b Hb]; [apply list_elem_of_here|].
    destruct IH as [bs Hbs].
    { intros a' Ha'. apply Hall. by apply list_elem_of_further. }
    exists (b :: bs). by constructor.
Qed.

Lemma forallb_id_Forall2 {A : Type} (P : A → bool → Prop) (l : list A) (bs : list bool) :
  Forall2 P l bs →
  (∀ a b1 b2, P a b1 → P a b2 → b1 = b2) →
  (forallb id bs = true ↔ ∀ a, a ∈ l → P a true)
  ∧ (forallb negb bs = true ↔ ∀ a, a ∈ l → P a false).
Proof.
  intros HF Hfun. induction HF as [|a b l bs Hab _ [IH1 IH2]]; simpl.
  - split; split; try done; intros _ a Ha; by apply elem_of_nil in Ha.
  - rewrite !andb_true_iff, IH1, IH2. split; split.
    + intros [Hb Hl] a' [->|Ha']%elem_of_cons; [|by apply Hl].
      unfold id in Hb. by subst b.
    + intros Hall. split.
      * unfold id. apply (Hfun a); [done|]. apply Hall, list_elem_of_here.
      * intros a' Ha'. by apply Hall, list_elem_of_further.
    + intros [Hb Hl] a' [->|Ha']%elem_of_cons; [|by apply Hl].
      apply negb_true_iff in Hb. by subst b.
    + intros Hall. split.
      * apply negb_true_iff, (Hfun a); [done|]. apply Hall, list_elem_of_here.
      * intros a' Ha'. by apply Hall, list_elem_of_further.
Qed.

Section Evaluator.

Context (Marker_parse : string → string → string → result unit).
Context (Marker_evaluate : string → string → string → gmap string env_value → result bool).
Context (format_arch : string → string → format_result).
Abbreviation leaf := (_single_marker_to_rpm_condition format_arch).
Abbreviation simplify :=
  (simplify_marker_to_rpm_condition Marker_parse Marker_evaluate format_arch).

(** The four outcomes of a comparison on a variable that the environment
    gives a list of candidates for. *)
Lemma simplify_candidates (var op val : string) (cands : list string)
    (bs : list bool) (environments : gmap string env_value) (tmpl : templates) :
  environments !! var = Some (EList cands) →
  Marker_parse var op val = Ok () →
  Forall2 (holds_on Marker_evaluate var op val) cands bs →
  simplify (MTuple var op val) environments tmpl =
    if forallb id bs then Ok (VBool true)
    else if forallb negb bs then Ok (VBool false)
    else if String.eqb var "extras" then Ok (VBool true)
    else VStr <$> leaf (var, op, val) tmpl.
Proof.
  intros Henv Hparse Hbs. simpl. rewrite Henv, Hparse. simpl.
  by rewrite (mapM_Forall2 _ _ _ Hbs).
Qed.

End Evaluator.

(** ** The slices of the DNF reduction are the runs between the connectives *)

Lemma zip_slices {A : Type} (simple : list A) (before : Z) (splits : list nat) :
  (-1 ≤ before)%Z →
  map (fun bl : Z * option nat => slice simple (fst bl + 1) (snd bl))
      (zip (before :: map Z.of_nat splits) (map Some splits ++ [None]))
  = slices_from simple (Z.to_nat (before + 1)) splits.
Proof.
  revert before. induction splits as [|e splits IH]; intros before Hb.
  - reflexivity.
  - specialize (IH (Z.of_nat e) ltac:(lia)).
    replace (Z.to_nat (Z.of_nat e + 1)) with (S e) in IH by lia.
    cbn [map app zip_with slices_from fst snd slice] in *.
    by rewrite IH.
Qed.

Lemma slices_from_shift {A : Type} (v : A) (vs : list A) (start : nat) (splits : list nat) :
  slices_from (v :: vs) (S start) (map S splits) = slices_from vs start splits.
Proof.
  revert start. induction splits as [|e splits IH]; intros start; simpl; [done|].
  by rewrite IH.
Qed.

Lemma splits_from_S (n : nat) (marker : list marker_tree) :
  map fst (List.filter (fun nv => marker_str_eq "or" (snd nv)) (enumerate_from (S n) marker))
  = map S (map fst (List.filter (fun nv => marker_str_eq "or" (snd nv))
                                (enumerate_from n marker))).
Proof.
  revert n. induction marker as [|m marker IH]; intros n; simpl; [done|].
  destruct (marker_str_eq "or" m); simpl; by rewrite IH.
Qed.

Lemma slices_spec_clauses (marker : list marker_tree) (simple : list value) :
  length marker = length simple →
  slices_from simple 0
    (map fst (List.filter (fun nv => marker_str_eq "or" (snd nv)) (enumerate marker)))
  = spec_clauses marker simple.
Proof.
  unfold enumerate. revert simple.
  induction marker as [|m marker IH]; intros [|v vs] Hlen; try done.
  simpl in Hlen. injection Hlen as Hlen. specialize (IH vs Hlen).
  cbn [enumerate_from List.filter snd spec_clauses].
  rewrite <- IH. destruct (marker_str_eq "or" m).
  - cbn [map fst]. rewrite splits_from_S. cbn [slices_from].
    by rewrite slices_from_shift.
  - rewrite splits_from_S.
    destruct (map fst _) as [|e splits]; [done|].
    cbn [map slices_from]. rewrite slices_from_shift.
    by rewrite !Nat.sub_0_r.
Qed.

Lemma dnf_clauses_spec (marker : list marker_tree) (simple : list value) :
  length marker = length simple →
  dnf_clauses marker simple = map spec_clean (spec_clauses marker simple).
Proof.
  intros Hlen. rewrite <- (slices_spec_clauses _ _ Hlen).
  unfold dnf_clauses. rewrite <- (zip_slices simple (-1)) by lia.
  by rewrite (map_map _ spec_clean).
Qed.

Lemma mapM_length {A B : Type} (f : A → result B) (l : list A) (bs : list B) :
  mapM f l = Ok bs → length l = length bs.
Proof.
  revert bs. induction l as [|a l IH]; intros bs; simpl.
  - by intros [= <-].
  - destruct (f a); [|done]. simpl. destruct (mapM f l); [|done]. simpl.
    intros [= <-]. simpl. f_equal. by apply IH.
Qed.

(** ** The marker evaluator on a group *)

Lemma mapM_as_str (ss : list string) : mapM as_str (map VStr ss) = Ok ss.
Proof. induction ss as [|s ss IH]; simpl; [done|]. by rewrite IH. Qed.

Lemma reduce_dnf_surviving (marker : list marker_tree) (simple : list value) :
  length marker = length simple →
  reduce_dnf marker simple = dnf_render (map spec_promote (spec_surviving marker simple)).
Proof.
  intros Hlen. unfold reduce_dnf, dnf_promote. by rewrite dnf_clauses_spec.
Qed.

Lemma spec_clean_no_True (cl : list value) (mk : value) :
  mk ∈ spec_clean cl → is_True mk = false.
Proof.
  unfold spec_clean. rewrite list_elem_of_In, filter_In.
  intros [_ [_ H]%andb_true_iff]. by apply negb_true_iff.
Qed.

(** A surviving clause is promoted to [True] exactly when it was emptied. *)
Lemma spec_promote_True (marker : list marker_tree) (simple : list value)
    (cl : list value) :
  cl ∈ spec_surviving marker simple →
  is_True (spec_promote cl) = true ↔ cl = [].
Proof.
  unfold spec_surviving. rewrite list_elem_of_In, filter_In, <- list_elem_of_In.
  intros [(raw & -> & _)%list_elem_of_fmap _].
  destruct (spec_clean raw) as [|mk [|mk' rest]] eqn:E; simpl; [done| |done].
  split; [|done]. intros HT.
  assert (is_True mk = false); [|congruence].
  apply (spec_clean_no_True raw). rewrite E. apply list_elem_of_here.
Qed.

(** A single surviving clause of several strings is joined with [" and "];
    a single surviving clause of one string is joined character by
    character. *)
Lemma dnf_render_single_clause (ss : list string) :
  (2 ≤ length ss)%nat →
  dnf_render [spec_promote (map VStr ss)] = Ok (VStr (String.concat " and " ss)).
Proof.
  destruct ss as [|s1 [|s2 ss]]; simpl; try lia. intros _.
  unfold dnf_render. cbn [existsb is_True orb].
  unfold str_join. change (VStr s1 :: VStr s2 :: map VStr ss) with (map VStr (s1 :: s2 :: ss)).
  by rewrite mapM_as_str.
Qed.

Lemma dnf_render_single_element (s : string) :
  dnf_render [spec_promote [VStr s]] = Ok (VStr (String.concat " and " (chars s))).
Proof. reflexivity. Qed.

Section Group.

Context (Marker_parse : string → string → string → result unit).
Context (Marker_evaluate : string → string → string → gmap string env_value → result bool).
Context (format_arch : string → string → format_result).
Abbreviation leaf := (_single_marker_to_rpm_condition format_arch).
Abbreviation simplify :=
  (simplify_marker_to_rpm_condition Marker_parse Marker_evaluate format_arch).

(** The list branch: the elements are evaluated from left to right, the
    first exception ends the call, and the results go to the reduction. *)
Lemma simplify_MList (l : list marker_tree) (environments : gmap string env_value)
    (tmpl : templates) :
  simplify (MList l) environments tmpl =
    simple_markers ← mapM (fun mk => simplify mk environments tmpl) l;
    reduce_dnf l simple_markers.
Proof.
  cbn [simplify_marker_to_rpm_condition]. f_equal.
  induction l as [|mk l IH]; [done|].
  cbn [mapM]. by rewrite <- IH.
Qed.

Lemma simplify_MMarker (l : list marker_tree) (environments : gmap string env_value)
    (tmpl : templates) :
  simplify (MMarker l) environments tmpl = simplify (MList l) environments tmpl.
Proof. reflexivity. Qed.

(** Only the token ['or'] itself comes back as ["or"]; in particular an
    element that folds to a boolean is not a connective. *)
Lemma simplify_bool_not_or (mk : marker_tree) (environments : gmap string env_value)
    (tmpl : templates) (b : bool) :
  simplify mk environments tmpl = Ok (VBool b) → marker_str_eq "or" mk = false.
Proof.
  destruct mk as [| | s | | |]; try done.
  cbn [simplify_marker_to_rpm_condition marker_str_eq].
  destruct (String.eqb_spec s "or") as [->|]; done.
Qed.

Lemma mapM_app_raise {A B : Type} (f : A → result B) (l1 l2 : list A) (a : A) (e : exn) :
  (∀ x, x ∈ l1 → ∃ b, f x = Ok b) → f a = Raise e →
  mapM f (l1 ++ a :: l2) = Raise e.
Proof.
  intros Hl1 Ha. induction l1 as [|x l1 IH]; simpl.
  - by rewrite Ha.
  - destruct (Hl1 x) as [b ->]; [apply list_elem_of_here|]. simpl.
    rewrite IH; [done|]. intros y Hy. apply Hl1. by apply list_elem_of_further.
Qed.

End Group.

(** ** The properties of the specification *)

Section Claims.

Context (Marker_parse : string → string → string → result unit).
Context (Marker_evaluate : string → string → string → gmap string env_value → result bool).
Context (format_arch : string → string → format_result).
Abbreviation leaf := (_single_marker_to_rpm_condition format_arch).
Abbreviation simplify :=
  (simplify_marker_to_rpm_condition Marker_parse Marker_evaluate format_arch).

(** A group of one comparison that stays symbolic: the string of the leaf
    translator comes back with [" and "] between its characters. *)
Lemma single_leaf_group (var op val s : string)
    (environments : gmap string env_value) (tmpl : templates) :
  environments !! var = None →
  leaf (var, op, val) tmpl = Ok s →
  s ≠ "and" →
  simplify (MMarker [MTuple var op val]) environments tmpl
  = Ok (VStr (String.concat " and " (chars s))).
Proof.
  intros Henv Hleaf Hand.
  rewrite simplify_MMarker, simplify_MList. cbn [mapM simplify_marker_to_rpm_condition].
  rewrite Henv, Hleaf. cbn [fmap result_fmap mbind result_bind].
  unfold reduce_dnf, dnf_clauses, enumerate, dnf_promote.
  cbn [enumerate_from List.filter snd marker_str_eq map zip_with app fst slice].
  change (Z.to_nat (-1 + 1)) with 0. cbn [drop List.filter str_eq is_True].
  destruct (String.eqb_spec s "and") as [|_]; [done|]. reflexivity.
Qed.

(** Whatever the library and the templates, a comparison on [extra] is
    unknown to an environment that only has the key [extras]. *)
Lemma extra_leaf_unsupported (value : string) (candidates : env_value) (tmpl : templates) :
  simplify (MTuple "extra" "==" value) {[ "extras" := candidates ]} tmpl
  = Raise (UnsupportedMarkerVariable "extra").
Proof. reflexivity. Qed.

(** C1, at the input where the code leaves the claim.  The marker
    [platform_release >= "5"] with an empty environment is a group whose
    single clause has the single element ["kernel >= 5"]; the claim asks for
    that string unchanged, and the code returns its characters joined with
    [" and "], because [' and '.join] is applied to the string itself. *)
Theorem single_element_clause_joined_by_character (tmpl : templates) :
  leaf ("platform_release", ">=", "5") tmpl = Ok "kernel >= 5"
  ∧ spec_surviving [MTuple "platform_release" ">=" "5"] [VStr "kernel >= 5"]
    = [[VStr "kernel >= 5"]]
  ∧ simplify (MMarker [MTuple "platform_release" ">=" "5"]) ∅ tmpl
    = Ok (VStr "k and e and r and n and e and l and   and > and = and   and 5").
Proof. repeat split; reflexivity. Qed.

(** C2, amended.  With the environment [{"extras": ["a", "b"]}] the
    comparison on the variable [extras] itself, [Leaf("extras", "==", "a")],
    which the library evaluates to true on ["a"] and to false on ["b"],
    folds to the constant [true], whatever the templates. *)
Theorem extras_mixed_true (tmpl : templates) :
  Marker_parse "extras" "==" "a" = Ok () →
  holds_on Marker_evaluate "extras" "==" "a" "a" true →
  holds_on Marker_evaluate "extras" "==" "a" "b" false →
  simplify (MTuple "extras" "==" "a") {[ "extras" := EList ["a"; "b"] ]} tmpl
  = Ok (VBool true).
Proof.
  intros Hparse Ha Hb.
  rewrite (simplify_candidates _ _ _ _ _ _ ["a"; "b"] [true; false]); try done.
  repeat constructor; done.
Qed.


(** C4.  In a group whose elements evaluate to [simple]: the clauses of
    the code are the runs between the ["or"] tokens with the [true]
    constants and the ["and"] tokens dropped; the clauses with a [false]
    element are discarded and an emptied clause becomes [true]; if no clause
    survives the result is [false], and if a surviving clause is [true]
    (was emptied) the result is [true].  In particular [(A and B) or C] with
    [A] true, [B] false and [C] true is [true]. *)
Theorem group_dnf_reduction (environments : gmap string env_value) (tmpl : templates) :
  (∀ (l : list marker_tree) (simple : list value),
     mapM (fun mk => simplify mk environments tmpl) l = Ok simple →
     dnf_clauses l simple = map spec_clean (spec_clauses l simple)
     ∧ dnf_promote (dnf_clauses l simple) = map spec_promote (spec_surviving l simple)
     ∧ (∀ cl, cl ∈ spec_surviving l simple → (is_True (spec_promote cl) = true ↔ cl = []))
     ∧ (spec_surviving l simple = [] →
        simplify (MList l) environments tmpl = Ok (VBool false))
     ∧ ([] ∈ spec_surviving l simple →
        simplify (MList l) environments tmpl = Ok (VBool true)))
  ∧ (∀ A B C : marker_tree,
       simplify A environments tmpl = Ok (VBool true) →
       simplify B environments tmpl = Ok (VBool false) →
       simplify C environments tmpl = Ok (VBool true) →
       simplify (MList [A; MStr "and"; B; MStr "or"; C]) environments tmpl
       = Ok (VBool true)).
Proof.
  split.
  - intros l simple Hsimple.
    pose proof (mapM_length _ _ _ Hsimple) as Hlen.
    split; [by apply dnf_clauses_spec|].
    split; [unfold dnf_promote; by rewrite dnf_clauses_spec|].
    split; [intros cl; apply spec_promote_True|].
    rewrite simplify_MList, Hsimple. cbn [mbind result_bind].
    rewrite (reduce_dnf_surviving _ _ Hlen).
    split.
    + by intros ->.
    + intros Hin. unfold dnf_render.
      assert (existsb is_True (map spec_promote (spec_surviving l simple)) = true) as ->.
      { apply existsb_exists. exists (VBool true). split; [|done].
        apply list_elem_of_In, list_elem_of_fmap. by exists []. }
      destruct (spec_surviving l simple); [|done]. by apply elem_of_nil in Hin.
  - intros A B C HA HB HC.
    rewrite simplify_MList. cbn [mapM]. rewrite HA, HB, HC.
    cbn [simplify_marker_to_rpm_condition mbind result_bind String.eqb Ascii.eqb
         Bool.eqb orb andb].
    unfold reduce_dnf, dnf_clauses, enumerate. cbn [enumerate_from List.filter snd].
    rewrite (simplify_bool_not_or _ _ _ _ _ _ _ HA), (simplify_bool_not_or _ _ _ _ _ _ _ HB),
      (simplify_bool_not_or _ _ _ _ _ _ _ HC).
    reflexivity.
Qed.


(** C6.  For [~=] the leaf translator, on a variable of the interpreter
    version or kernel release category, returns the one string
    ["(<package> >= <version> and <package> < <version>^next)"], and the
    specifier translator emits the two clauses ["<package> >= <version>"]
    and ["<package> < <version>^zzz"] joined with [", "]. *)
Theorem compatible_release_suffixes (tmpl : templates) (var val pkg package v : string) :
  package_token tmpl var = Some pkg →
  leaf (var, "~=", val) tmpl
  = Ok ("(" +:+ pkg +:+ " >= " +:+ val +:+ " and " +:+ pkg +:+ " < " +:+ val +:+ "^next)")
  ∧ specifier_clauses package {| operator := "~="; version := v |}
    = [package +:+ " >= " +:+ rstrip ".*" v; package +:+ " < " +:+ rstrip ".*" v +:+ "^zzz"]
  ∧ specifier_to_rpm_version package [{| operator := "~="; version := v |}]
    = (package +:+ " >= " +:+ rstrip ".*" v) +:+ ", "
      +:+ (package +:+ " < " +:+ rstrip ".*" v +:+ "^zzz")
  ∧ specifier_to_rpm_version "foo" [{| operator := "~="; version := "1.4" |}]
    = "foo >= 1.4, foo < 1.4^zzz".
Proof.
  intros Hpkg. split; [|repeat split; reflexivity].
  by rewrite (leaf_with_package _ _ _ _ _ _ Hpkg).
Qed.

(** C7.  The result of the specifier translator is the clauses of the
    specifiers, in the order of iteration, joined with [", "], and the bare
    package name when there is no clause; so [{">=1.0", "<2.0"}] gives
    ["foo >= 1.0, foo < 2.0"] and the empty set gives ["foo"]. *)
Theorem specifier_clauses_joined_in_order (package : string) (specs : list Specifier) :
  specifier_to_rpm_version package specs =
    match List.concat (map (specifier_clauses package) specs) with
    | [] => package
    | clauses => String.concat ", " clauses
    end
  ∧ specifier_to_rpm_version "foo"
      [{| operator := ">="; version := "1.0" |}; {| operator := "<"; version := "2.0" |}]
    = "foo >= 1.0, foo < 2.0"
  ∧ specifier_to_rpm_version package [] = package
  ∧ specifier_to_rpm_version "foo" [] = "foo".
Proof.
  split; [apply specifier_to_rpm_version_clauses|]. repeat split; reflexivity.
Qed.

(** C8, at the input where the code leaves the claim.  The version text
    ["1.*.*"] (of an arbitrary-equality specifier [===1.*.*]) ends in the
    wildcard suffix; without that suffix it is ["1.*"], and the code emits
    the clause with ["1"], because [rstrip(".*")] removes every trailing
    dot and star. *)
Theorem rstrip_removes_more_than_the_suffix :
  removesuffix ".*" "1.*.*" = "1.*"
  ∧ rstrip ".*" "1.*.*" = "1"
  ∧ specifier_to_rpm_version "foo" [{| operator := "==="; version := "1.*.*" |}]
    = "foo = 1".
Proof. repeat split; reflexivity. Qed.

(** C9.  On a variable of the interpreter version or kernel release
    category the leaf translator returns the same string for [==] and for
    [===], namely ["<package> = <version>"]; and so does the specifier
    translator, for the clause and for the whole result. *)
Theorem equality_operators_coincide (tmpl : templates) (var val pkg package v : string)
    (before after : list Specifier) :
  package_token tmpl var = Some pkg →
  leaf (var, "==", val) tmpl = Ok (pkg +:+ " = " +:+ val)
  ∧ leaf (var, "===", val) tmpl = Ok (pkg +:+ " = " +:+ val)
  ∧ specifier_clauses package {| operator := "=="; version := v |}
    = [package +:+ " = " +:+ rstrip ".*" v]
  ∧ specifier_clauses package {| operator := "==="; version := v |}
    = [package +:+ " = " +:+ rstrip ".*" v]
  ∧ specifier_to_rpm_version package (before ++ {| operator := "=="; version := v |} :: after)
    = specifier_to_rpm_version package (before ++ {| operator := "==="; version := v |} :: after).
Proof.
  intros Hpkg.
  split; [by rewrite (leaf_with_package _ _ _ _ _ _ Hpkg)|].
  split; [by rewrite (leaf_with_package _ _ _ _ _ _ Hpkg)|].
  split; [reflexivity|]. split; [reflexivity|].
  rewrite !specifier_to_rpm_version_clauses, !map_app. reflexivity.
Qed.

(** C10.  Specifiers whose operator is none of the eight operators add no
    clause and raise nothing: each leaves the accumulated list as it is, the
    result is the same with or without it, and a set of such specifiers
    gives the bare package name; whereas the leaf translator raises on such
    an operator (other than [in]) whatever the variable. *)
Theorem unrecognized_specifier_dropped (package : string) (specs : list Specifier) :
  (∀ s, s ∈ specs → operator s ∉ specifier_operators) →
  specifier_to_rpm_version package specs = package
  ∧ (∀ s acc, s ∈ specs → specifier_step package acc s = acc)
  ∧ (∀ s before after, s ∈ specs →
       specifier_to_rpm_version package (before ++ s :: after)
       = specifier_to_rpm_version package (before ++ after))
  ∧ (∀ s var val tmpl, s ∈ specs → operator s ≠ "in" →
       ∃ e, leaf (var, operator s, val) tmpl = Raise e).
Proof.
  intros Hops. split; [|split; [|split]].
  - rewrite specifier_to_rpm_version_clauses.
    assert (List.concat (map (specifier_clauses package) specs) = []) as ->; [|done].
    induction specs as [|s specs IH]; [done|]. simpl.
    rewrite specifier_clauses_unrecognized by (apply Hops, list_elem_of_here).
    apply IH. intros s' Hs'. by apply Hops, list_elem_of_further.
  - intros s acc Hs.
    rewrite specifier_step_acc, specifier_clauses_unrecognized by by apply Hops.
    apply app_nil_r.
  - intros s before after Hs.
    rewrite !specifier_to_rpm_version_clauses, !map_app. cbn [map].
    rewrite !concat_app. cbn [List.concat].
    by rewrite specifier_clauses_unrecognized by by apply Hops.
  - intros s var val tmpl Hs Hin. eexists. apply leaf_unsupported.
    specialize (Hops s Hs). unfold supported_comparison.
    repeat case_bool_decide; try done; exfalso.
    + match goal with H : operator s ∈ _ |- _ => rename H into Hop end.
      repeat (apply elem_of_cons in Hop as [Hop|Hop];
              [first [done | apply Hops; rewrite Hop; in_list]|]).
      by apply elem_of_nil in Hop.
    + match goal with H : operator s ∈ _ |- _ => rename H into Hop end.
      repeat (apply elem_of_cons in Hop as [Hop|Hop];
              [first [done | apply Hops; rewrite Hop; in_list]|]).
      by apply elem_of_nil in Hop.
Qed.

End Claims.

(** ** The properties at concrete inputs *)

(** C2, as stated: the leaf names the variable [extra], the environment
    has no entry under that name, so the leaf goes to the leaf translator,
    which has no RPM equivalent for [extra]; the result is not [true]. *)
Lemma extra_leaf_is_not_in_the_extras_environment :
  ({[ "extras" := EList ["a"; "b"] ]} : gmap string env_value) !! "extra" = None
  ∧ run (MTuple "extra" "==" "a") {[ "extras" := EList ["a"; "b"] ]} example_templates
    = Raise (UnsupportedMarkerVariable "extra")
  ∧ run (MTuple "extra" "==" "a") {[ "extras" := EList ["a"; "b"] ]} example_templates
    ≠ Ok (VBool true).
Proof. split; [reflexivity|]. split; [reflexivity | discriminate]. Qed.

Lemma extras_mixed_true_witness :
  text_parse "extras" "==" "a" = Ok ()
  ∧ holds_on text_evaluate "extras" "==" "a" "a" true
  ∧ holds_on text_evaluate "extras" "==" "a" "b" false
  ∧ run (MTuple "extras" "==" "a") {[ "extras" := EList ["a"; "b"] ]} example_templates
    = Ok (VBool true).
Proof.
  assert (H1 : text_parse "extras" "==" "a" = Ok ()) by reflexivity.
  assert (H2 : holds_on text_evaluate "extras" "==" "a" "a" true) by reflexivity.
  assert (H3 : holds_on text_evaluate "extras" "==" "a" "b" false) by reflexivity.
  split; [exact H1|]. split; [exact H2|]. split; [exact H3|].
  exact (extras_mixed_true text_parse text_evaluate text_format example_templates H1 H2 H3).
Defined.



Lemma group_dnf_reduction_witness :
  mapM (fun mk => run mk ∅ example_templates) [MBool true; MStr "and"; MBool false]
  = Ok [VBool true; VStr "and"; VBool false]
  ∧ spec_surviving [MBool true; MStr "and"; MBool false]
                   [VBool true; VStr "and"; VBool false] = []
  ∧ run (MList [MBool true; MStr "and"; MBool false]) ∅ example_templates = Ok (VBool false)
  ∧ run (MList [MList [MBool true]; MStr "and"; MBool false; MStr "or"; MNone])
        ∅ example_templates = Ok (VBool true).
Proof.
  assert (H : mapM (fun mk => run mk ∅ example_templates) [MBool true; MStr "and"; MBool false]
              = Ok [VBool true; VStr "and"; VBool false]) by reflexivity.
  split; [exact H|]. split; [reflexivity|]. split.
  - apply (proj1 (group_dnf_reduction text_parse text_evaluate text_format ∅ example_templates)
             _ _ H).
    reflexivity.
  - apply (proj2 (group_dnf_reduction text_parse text_evaluate text_format ∅ example_templates));
      reflexivity.
Defined.



Lemma compatible_release_suffixes_witness :
  package_token example_templates "python_version" = Some "pythonabi"
  ∧ run_leaf ("python_version", "~=", "3.8") example_templates
    = Ok "(pythonabi >= 3.8 and pythonabi < 3.8^next)"
  ∧ specifier_to_rpm_version "foo" [{| operator := "~="; version := "1.4" |}]
    = "foo >= 1.4, foo < 1.4^zzz".
Proof.
  assert (H : package_token example_templates "python_version" = Some "pythonabi")
    by reflexivity.
  pose proof (compatible_release_suffixes text_format example_templates
                "python_version" "3.8" "pythonabi" "foo" "1.4" H) as (Hleaf & _ & Hspec & _).
  split; [exact H|]. split; [exact Hleaf | exact Hspec].
Defined.

Lemma equality_operators_coincide_witness :
  package_token example_templates "platform_release" = Some "kernel"
  ∧ run_leaf ("platform_release", "==", "5.4") example_templates = Ok "kernel = 5.4"
  ∧ run_leaf ("platform_release", "===", "5.4") example_templates = Ok "kernel = 5.4"
  ∧ specifier_to_rpm_version "foo"
      [{| operator := ">="; version := "1.0" |}; {| operator := "=="; version := "1.4.*" |}]
    = specifier_to_rpm_version "foo"
        [{| operator := ">="; version := "1.0" |}; {| operator := "==="; version := "1.4.*" |}].
Proof.
  assert (H : package_token example_templates "platform_release" = Some "kernel")
    by reflexivity.
  pose proof (equality_operators_coincide text_format example_templates
                "platform_release" "5.4" "kernel" "foo" "1.4.*"
                [{| operator := ">="; version := "1.0" |}] [] H)
    as (Heq & Heqq & _ & _ & Hspec).
  split; [exact H|]. split; [exact Heq|]. split; [exact Heqq | exact Hspec].
Defined.

Lemma unrecognized_specifier_dropped_witness :
  (∀ s, s ∈ [{| operator := "=>"; version := "1.0" |}; {| operator := "<>"; version := "2" |}] →
        operator s ∉ specifier_operators)
  ∧ specifier_to_rpm_version "foo"
      [{| operator := "=>"; version := "1.0" |}; {| operator := "<>"; version := "2" |}]
    = "foo"
  ∧ ∃ e, run_leaf ("python_version", "=>", "1.0") example_templates = Raise e.
Proof.
  assert (H : ∀ s, s ∈ [{| operator := "=>"; version := "1.0" |};
                        {| operator := "<>"; version := "2" |}] →
                   operator s ∉ specifier_operators).
  { intros s Hs. repeat (apply elem_of_cons in Hs as [->|Hs]; [not_in_list|]).
    by apply elem_of_nil in Hs. }
  pose proof (unrecognized_specifier_dropped text_format "foo" _ H)
    as (Hall & _ & _ & Hleaf).
  split; [exact H|]. split; [exact Hall|].
  apply (Hleaf {| operator := "=>"; version := "1.0" |}); [in_list | discriminate].
Defined.

(** ** Beyond the specification: strings *)

Lemma append_cons (x : Ascii.ascii) (a b : string) :
  String x a +:+ b = String x (a +:+ b).
Proof. reflexivity. Qed.

Lemma append_assoc (a b c : string) : (a +:+ b) +:+ c = a +:+ (b +:+ c).
Proof. induction a as [|x a IH]; [done|]. rewrite !append_cons. by f_equal. Qed.

Lemma append_nil_r (a : string) : a +:+ "" = a.
Proof. induction a as [|x a IH]; [done|]. rewrite append_cons. by f_equal. Qed.

Lemma length_append (a b : string) :
  String.length (a +:+ b) = (String.length a + String.length b)%nat.
Proof.
  induction a as [|x a IH]; [done|]. rewrite append_cons. cbn [String.length].
  rewrite IH. lia.
Qed.

Lemma concat_cons_length (sep x : string) (xs : list string) :
  (String.length x ≤ String.length (String.concat sep (x :: xs)))%nat.
Proof.
  destruct xs as [|y xs]; simpl; [done|]. rewrite length_append. lia.
Qed.

Lemma concat_app_sep (sep : string) (a b : list string) :
  a ≠ [] → b ≠ [] →
  String.concat sep (a ++ b) = String.concat sep a +:+ sep +:+ String.concat sep b.
Proof.
  intros Ha Hb. induction a as [|x a IH]; [done|].
  destruct a as [|y a].
  - destruct b; [done|]. reflexivity.
  - change (String.concat sep ((x :: y :: a) ++ b))
      with (x +:+ sep +:+ String.concat sep ((y :: a) ++ b)).
    rewrite IH by done.
    change (String.concat sep (x :: y :: a)) with (x +:+ sep +:+ String.concat sep (y :: a)).
    by rewrite !append_assoc.
Qed.

Lemma rstrip_cons (cs : string) (c : Ascii.ascii) (r : string) :
  rstrip cs (String c r) =
    match rstrip cs r with
    | EmptyString => if char_in c cs then EmptyString else String c EmptyString
    | r' => String c r'
    end.
Proof. reflexivity. Qed.

(** [rstrip] leaves a text alone when its last character is not in the set. *)
Lemma rstrip_kept (cs : string) (c : Ascii.ascii) (base : string) :
  char_in c cs = false →
  rstrip cs (base +:+ String c "") = base +:+ String c "".
Proof.
  intros Hc. induction base as [|d base IH].
  - simpl. by rewrite Hc.
  - change (rstrip cs (String d (base +:+ String c "")) = String d (base +:+ String c "")).
    cbn [rstrip]. rewrite IH. by destruct base.
Qed.

Lemma rstrip_tail_last_idem (cs s : string) :
  (∃ tail, s = rstrip cs s +:+ tail ∧ all_chars_in cs tail = true)
  ∧ (∀ c, last_char (rstrip cs s) = Some c → char_in c cs = false)
  ∧ rstrip cs (rstrip cs s) = rstrip cs s.
Proof.
  induction s as [|d s IH].
  - split; [by exists ""|]. split; [done|reflexivity].
  - destruct IH as ([tail [Htail Hall]] & Hlast & Hidem).
    cbn [rstrip]. destruct (rstrip cs s) as [|e r] eqn:E.
    + destruct (char_in d cs) eqn:Hd.
      * split; [|done]. exists (String d tail). split; [by rewrite Htail|].
        cbn [all_chars_in]. by rewrite Hd, Hall.
      * split; [exists tail; by rewrite Htail|].
        split; [by intros c [= <-]|]. cbn [rstrip]. by rewrite Hd.
    + split; [exists tail; by rewrite Htail|].
      split; [exact Hlast|].
      by rewrite (rstrip_cons cs d (String e r)), Hidem.
Qed.

(** X1.  What [rstrip] does to a version text.  The text is the result
    followed by a tail made of characters of the set only; the result does
    not end in a character of the set; stripping again changes nothing. *)
Theorem rstrip_characterised (cs s : string) :
  (∃ tail, s = rstrip cs s +:+ tail ∧ all_chars_in cs tail = true)
  ∧ (∀ c, last_char (rstrip cs s) = Some c → char_in c cs = false)
  ∧ rstrip cs (rstrip cs s) = rstrip cs s.
Proof. apply rstrip_tail_last_idem. Qed.

(** ** Beyond the specification: the specifier translator *)

Lemma specifier_clauses_rstrip (package op v : string) :
  specifier_clauses package {| operator := op; version := v |}
  = specifier_clauses package {| operator := op; version := rstrip ".*" v |}.
Proof.
  unfold specifier_clauses, specifier_step. cbn [operator version].
  destruct (rstrip_tail_last_idem ".*" v) as (_ & _ & ->). reflexivity.
Qed.

Lemma specifier_clauses_nil (package : string) (spec : Specifier) :
  specifier_clauses package spec = [] ↔ operator spec ∉ specifier_operators.
Proof.
  split; [|apply specifier_clauses_unrecognized].
  intros Hnil Hin. unfold specifier_operators in Hin.
  destruct spec as [op v]. cbn [operator] in Hin.
  repeat (apply elem_of_cons in Hin as [->|Hin]; [discriminate Hnil|]).
  by apply elem_of_nil in Hin.
Qed.

Lemma concat_clauses_nil (package : string) (specs : list Specifier) :
  List.concat (map (specifier_clauses package) specs) = []
  ↔ ∀ s, s ∈ specs → operator s ∉ specifier_operators.
Proof.
  induction specs as [|s specs IH]; simpl.
  - split; [|done]. intros _ s Hs. by apply elem_of_nil in Hs.
  - split.
    + intros [Hs Hrest]%app_eq_nil s' [->|Hs']%elem_of_cons.
      * by apply (specifier_clauses_nil package).
      * by apply IH.
    + intros Hall.
      rewrite (proj2 (specifier_clauses_nil package s)) by apply Hall, list_elem_of_here.
      apply IH. intros s' Hs'. by apply Hall, list_elem_of_further.
Qed.

(** Every clause is longer than the package name. *)
Lemma specifier_clause_longer (package : string) (spec : Specifier) (clause : string) :
  clause ∈ specifier_clauses package spec →
  (String.length package < String.length clause)%nat.
Proof.
  unfold specifier_clauses, specifier_step.
  destruct (_rpm_operator_correspondance !! operator spec) as [rpm_op|].
  - intros ->%list_elem_of_singleton. rewrite !length_append. simpl. lia.
  - repeat case_match.
    + intros [->|[->|[]%elem_of_nil]%elem_of_cons]%elem_of_cons;
        rewrite !length_append; simpl; lia.
    + intros ->%list_elem_of_singleton. rewrite !length_append. simpl. lia.
    + by intros ?%elem_of_nil.
Qed.

(** X2.  The result is the bare package name exactly when no specifier has
    one of the eight operators: a constraint that is emitted always shows. *)
Theorem bare_package_iff_nothing_recognized (package : string) (specs : list Specifier) :
  specifier_to_rpm_version package specs = package
  ↔ ∀ s, s ∈ specs → operator s ∉ specifier_operators.
Proof.
  rewrite <- (concat_clauses_nil package), specifier_to_rpm_version_clauses.
  destruct (List.concat (map (specifier_clauses package) specs)) as [|c cs] eqn:E.
  { split; done. }
  split; [|done]. intros Heq. exfalso.
  assert (Hc : c ∈ List.concat (map (specifier_clauses package) specs))
    by (rewrite E; apply list_elem_of_here).
  apply list_elem_of_In, in_concat in Hc as (cl & Hcl & Hc).
  apply in_map_iff in Hcl as (s & <- & _).
  apply list_elem_of_In, specifier_clause_longer in Hc.
  pose proof (concat_cons_length ", " c cs) as Hlen.
  rewrite Heq in Hlen. lia.
Qed.

(** X3.  Translating a specifier set in two parts: when both parts give
    clauses the result is the two results joined with [", "]; when a part
    gives none the result is that of the other part. *)
Theorem specifier_translation_of_append (package : string) (specs1 specs2 : list Specifier) :
  ((∃ s, s ∈ specs1 ∧ operator s ∈ specifier_operators) →
   (∃ s, s ∈ specs2 ∧ operator s ∈ specifier_operators) →
   specifier_to_rpm_version package (specs1 ++ specs2)
   = specifier_to_rpm_version package specs1 +:+ ", "
     +:+ specifier_to_rpm_version package specs2)
  ∧ ((∀ s, s ∈ specs1 → operator s ∉ specifier_operators) →
     specifier_to_rpm_version package (specs1 ++ specs2)
     = specifier_to_rpm_version package specs2)
  ∧ ((∀ s, s ∈ specs2 → operator s ∉ specifier_operators) →
     specifier_to_rpm_version package (specs1 ++ specs2)
     = specifier_to_rpm_version package specs1).
Proof.
  rewrite !specifier_to_rpm_version_clauses, map_app, concat_app.
  split; [|split].
  - intros (s1 & Hs1 & Hop1) (s2 & Hs2 & Hop2).
    destruct (List.concat (map (specifier_clauses package) specs1)) as [|c1 cs1] eqn:E1.
    { exfalso. by apply (proj1 (concat_clauses_nil package specs1) E1 s1). }
    destruct (List.concat (map (specifier_clauses package) specs2)) as [|c2 cs2] eqn:E2.
    { exfalso. by apply (proj1 (concat_clauses_nil package specs2) E2 s2). }
    by rewrite <- concat_app_sep.
  - intros H1. by rewrite (proj2 (concat_clauses_nil package specs1) H1).
  - intros H2. by rewrite (proj2 (concat_clauses_nil package specs2) H2), app_nil_r.
Qed.

(** X4.  A trailing wildcard is dropped: when the text before [".*"] does
    not end in a dot or a star, a specifier on [base.*] is translated as the
    same specifier on [base], wherever it stands in the set. *)
Theorem wildcard_translated_as_base (package op base : string) (c : Ascii.ascii)
    (before after : list Specifier) :
  char_in c ".*" = false →
  specifier_to_rpm_version package
    (before ++ {| operator := op; version := base +:+ String c ".*" |} :: after)
  = specifier_to_rpm_version package
      (before ++ {| operator := op; version := base +:+ String c "" |} :: after).
Proof.
  intros Hc. rewrite !specifier_to_rpm_version_clauses, !map_app. cbn [map].
  rewrite (specifier_clauses_rstrip package op (base +:+ String c ".*")).
  rewrite (specifier_clauses_rstrip package op (base +:+ String c "")).
  by rewrite rstrip_wildcard, rstrip_kept.
Qed.

(** ** Beyond the specification: the leaf translator *)

Lemma split_from_word (w word rest : string) :
  no_space w = true →
  split_from word (w +:+ rest) = split_from (word +:+ w) rest.
Proof.
  revert word. induction w as [|c w IH]; intros word Hw.
  - by rewrite append_nil_r.
  - cbn [no_space] in Hw. apply andb_true_iff in Hw as [Hc Hw].
    apply negb_true_iff in Hc.
    rewrite append_cons. cbn [split_from]. rewrite Hc, IH by done.
    by rewrite append_assoc.
Qed.

Lemma is_word_nonempty (w : string) : is_word w = true → String.eqb w "" = false.
Proof. unfold is_word. intros [H _]%andb_true_iff. by apply negb_true_iff. Qed.

(** [split()] undoes a join with single spaces. *)
Lemma str_split_join (ws : list string) :
  Forall (fun w => is_word w = true) ws →
  str_split (String.concat " " ws) = ws.
Proof.
  unfold str_split. induction 1 as [|w ws Hw Hws IH]; [done|].
  pose proof (is_word_nonempty w Hw) as Hne.
  assert (Hsp : no_space w = true) by (by apply andb_true_iff in Hw as [_ ?]).
  destruct ws as [|w' ws].
  - cbn [String.concat]. rewrite <- (append_nil_r w) at 1.
    rewrite split_from_word by done. change ("" +:+ w) with w.
    cbn [split_from]. by rewrite Hne.
  - change (String.concat " " (w :: w' :: ws))
      with (w +:+ " " +:+ String.concat " " (w' :: ws)).
    rewrite split_from_word by done. change ("" +:+ w) with w.
    rewrite append_cons. cbn [split_from].
    match goal with |- context [is_space ?c] => change (is_space c) with true end.
    cbv iota. change ("" +:+ String.concat " " (w' :: ws)) with (String.concat " " (w' :: ws)).
    by rewrite Hne, IH.
Qed.

Lemma append_space_not_connective (p r : string) :
  p +:+ " " +:+ r ≠ "and" ∧ p +:+ " " +:+ r ≠ "or".
Proof.
  destruct p as [|c1 [|c2 [|c3 [|c4 p]]]]; split; intros H;
    rewrite ?append_cons in H; discriminate H.
Qed.

Section MoreLeaf.

Context (format_arch : string → string → format_result).
Abbreviation leaf := (_single_marker_to_rpm_condition format_arch).

(** X5.  No string of the leaf translator is one of the connectives: a
    rendered comparison is never dropped as ['and'] by the reduction. *)
Theorem leaf_never_a_connective (tmpl : templates) (var op val s : string) :
  leaf (var, op, val) tmpl = Ok s → s ≠ "and" ∧ s ≠ "or".
Proof.
  unfold _single_marker_to_rpm_condition.
  destruct (String.eqb var "platform_machine").
  { destruct (String.eqb op "==").
    { destruct (format_arch _ _); [|done]. intros [= <-]. split; discriminate. }
    destruct (String.eqb op "!=").
    { destruct (format_arch _ _); [|done]. intros [= <-]. split; discriminate. }
    destruct (String.eqb op "in"); [|done].
    destruct (mapM _ _); [|done]. intros [= <-]. split; discriminate. }
  destruct (if _ : bool then _ else _) as [package|]; [|done].
  cbn [mbind result_bind].
  destruct (_rpm_operator_correspondance !! op) as [rpm_op|].
  - intros [= <-]. apply append_space_not_connective.
  - repeat case_match; intros [= <-]; split; discriminate.
Qed.

(** X6.  The operator [in] on a value made of words separated by single
    spaces, a word being non-empty and free of whitespace: one alternative
    per word, in order, joined with [" or "] in parentheses.  For a version
    or kernel variable the alternative is ["<package> = <word>"]; for
    [platform_machine] it is the architecture template formatted with the
    word, after ["if "], and the first word on which [format] raises ends
    the call with that exception.  No word gives empty parentheses. *)
Theorem leaf_in_one_clause_per_word (tmpl : templates) (var pkg : string)
    (words : list string) :
  Forall (fun w => is_word w = true) words →
  (package_token tmpl var = Some pkg →
   leaf (var, "in", String.concat " " words) tmpl
   = Ok ("(" +:+ String.concat " or " (map (fun w => pkg +:+ " = " +:+ w) words) +:+ ")"))
  ∧ (∀ formatted,
       Forall2 (fun w f => format_arch (python_arch tmpl) w = Formatted f) words formatted →
       leaf ("platform_machine", "in", String.concat " " words) tmpl
       = Ok ("if (" +:+ String.concat " or " formatted +:+ ")"))
  ∧ (∀ before w after fe,
       words = before ++ w :: after →
       (∀ x, x ∈ before → ∃ f, format_arch (python_arch tmpl) x = Formatted f) →
       format_arch (python_arch tmpl) w = FormatRaises fe →
       leaf ("platform_machine", "in", String.concat " " words) tmpl
       = Raise (FormatError fe)).
Proof.
  intros Hwords. split; [|split].
  - intros Hpkg. rewrite (leaf_with_package _ _ _ _ _ _ Hpkg).
    change (_rpm_operator_correspondance !! "in") with (@None string).
    cbn [String.eqb Ascii.eqb Bool.eqb andb]. by rewrite str_split_join.
  - intros formatted Hformatted. unfold _single_marker_to_rpm_condition.
    cbn [String.eqb Ascii.eqb Bool.eqb andb]. rewrite str_split_join by done.
    rewrite (mapM_Forall2 _ words formatted); [done|].
    clear Hwords. induction Hformatted as [|w f ws fs Hwf _ IH]; [constructor|].
    constructor; [by rewrite Hwf | done].
  - intros before w after fe -> Hbefore Hw. unfold _single_marker_to_rpm_condition.
    cbn [String.eqb Ascii.eqb Bool.eqb andb]. rewrite str_split_join by done.
    rewrite (mapM_app_raise _ before after w (FormatError fe)); [done| |by rewrite Hw].
    intros x Hx. destruct (Hbefore x Hx) as [f Hf]. exists f. by rewrite Hf.
Qed.

(** X7.  The two translators agree outside [~=]: for the six direct
    operators and [!=], on a version without a trailing dot or star, the
    string of the leaf translator for a variable with package token [pkg] is
    the result of the specifier translator for the package [pkg]. *)
Theorem translators_agree_outside_compatible_release
    (tmpl : templates) (var pkg op v : string) :
  package_token tmpl var = Some pkg →
  op ∈ ["=="; "==="; "<"; "<="; ">="; ">"; "!="] →
  rstrip ".*" v = v →
  leaf (var, op, v) tmpl
  = Ok (specifier_to_rpm_version pkg [{| operator := op; version := v |}]).
Proof.
  intros Hpkg Hop Hv. rewrite (leaf_with_package _ _ _ _ _ _ Hpkg).
  unfold specifier_to_rpm_version, specifier_step. cbn [fold_left operator version].
  rewrite Hv.
  repeat (apply elem_of_cons in Hop as [->|Hop]; [reflexivity|]).
  by apply elem_of_nil in Hop.
Qed.

End MoreLeaf.

(** ** Beyond the specification: the evaluator on a comparison *)

Section MoreEvaluator.

Context (Marker_parse : string → string → string → result unit).
Context (Marker_evaluate : string → string → string → gmap string env_value → result bool).
Context (format_arch : string → string → format_result).
Abbreviation leaf := (_single_marker_to_rpm_condition format_arch).
Abbreviation simplify :=
  (simplify_marker_to_rpm_condition Marker_parse Marker_evaluate format_arch).

(** X8.  A variable that the environment gives one value for is decided:
    the result is the boolean of the comparison in that environment, and the
    leaf translator is not asked, whatever the variable and the operator. *)
Theorem single_value_is_decided (var op val current : string) (b : bool)
    (environments : gmap string env_value) (tmpl : templates) :
  environments !! var = Some (EStr current) →
  Marker_parse var op val = Ok () →
  Marker_evaluate var op val environments = Ok b →
  simplify (MTuple var op val) environments tmpl = Ok (VBool b).
Proof.
  intros Henv Hparse Heval. cbn [simplify_marker_to_rpm_condition].
  rewrite Henv, Hparse. cbn [mbind result_bind]. rewrite Heval.
  by destruct b.
Qed.

(** X9.  What the library raises comes out unchanged, for a variable of the
    environment: from the construction of the marker, even when there is no
    candidate to evaluate, and from the evaluation on any candidate, even
    when others evaluate (there is no early exit from the candidates). *)
Theorem library_exceptions_propagate (var op val : string) (e : exn)
    (environments : gmap string env_value) (tmpl : templates) :
  (∀ entry, environments !! var = Some entry →
     Marker_parse var op val = Raise e →
     simplify (MTuple var op val) environments tmpl = Raise e)
  ∧ (∀ before c after,
       environments !! var = Some (EList (before ++ c :: after)) →
       Marker_parse var op val = Ok () →
       (∀ x, x ∈ before → ∃ b, holds_on Marker_evaluate var op val x b) →
       Marker_evaluate var op val {[ var := EStr c ]} = Raise e →
       simplify (MTuple var op val) environments tmpl = Raise e)
  ∧ (∀ current,
       environments !! var = Some (EStr current) →
       Marker_parse var op val = Ok () →
       Marker_evaluate var op val environments = Raise e →
       simplify (MTuple var op val) environments tmpl = Raise e).
Proof.
  split; [|split].
  - intros entry Henv Hparse. cbn [simplify_marker_to_rpm_condition].
    by rewrite Henv, Hparse.
  - intros before c after Henv Hparse Hbefore Hc.
    cbn [simplify_marker_to_rpm_condition]. rewrite Henv, Hparse.
    cbn [mbind result_bind].
    by rewrite (mapM_app_raise
                  (fun x => Marker_evaluate var op val {[ var := EStr x ]})
                  before after c e Hbefore Hc).
  - intros current Henv Hparse Heval. cbn [simplify_marker_to_rpm_condition].
    rewrite Henv, Hparse. cbn [mbind result_bind]. by rewrite Heval.
Qed.

(** X10.  On the variable [extras] with a list of candidates the result is
    always a boolean: [true] when the list is empty or the comparison holds
    for some candidate, [false] when the list is not empty and it holds for
    none. *)
Theorem extras_always_decided (op val : string) (cands : list string)
    (environments : gmap string env_value) (tmpl : templates) :
  environments !! "extras" = Some (EList cands) →
  Marker_parse "extras" op val = Ok () →
  (∀ c, c ∈ cands → ∃ b, holds_on Marker_evaluate "extras" op val c b) →
  (cands = [] ∨ (∃ c, c ∈ cands ∧ holds_on Marker_evaluate "extras" op val c true) →
   simplify (MTuple "extras" op val) environments tmpl = Ok (VBool true))
  ∧ (cands ≠ [] → (∀ c, c ∈ cands → holds_on Marker_evaluate "extras" op val c false) →
     simplify (MTuple "extras" op val) environments tmpl = Ok (VBool false)).
Proof.
  intros Henv Hparse Hall.
  assert (Hfun : ∀ c b1 b2, holds_on Marker_evaluate "extras" op val c b1 →
                            holds_on Marker_evaluate "extras" op val c b2 → b1 = b2).
  { unfold holds_on. intros c b1 b2 H1 H2. congruence. }
  destruct (all_Ok_Forall2 (fun c => Marker_evaluate "extras" op val {[ "extras" := EStr c ]})
              cands Hall) as [bs Hbs].
  rewrite (simplify_candidates _ _ _ _ _ _ _ _ _ _ Henv Hparse Hbs).
  destruct (forallb_id_Forall2 _ _ _ Hbs Hfun) as [Hid Hneg].
  change (String.eqb "extras" "extras") with true. cbv iota.
  split.
  - intros [->|(c & Hc & Hholds)].
    + inversion Hbs. reflexivity.
    + destruct (forallb id bs); [done|].
      destruct (forallb negb bs) eqn:E; [|done].
      assert (true = false); [|done].
      apply (Hfun c); [done|]. by apply (proj1 Hneg).
  - intros Hne Hnone. rewrite (proj2 Hneg Hnone).
    destruct (forallb id bs) eqn:E; [|done].
    destruct cands as [|c cands]; [done|].
    assert (true = false); [|done].
    apply (Hfun c); [apply (proj1 Hid eq_refl) | apply Hnone]; apply list_elem_of_here.
Qed.

(** X11.  What comes back is a [str] or a [bool], as documented, except
    that a bare string other than ['or'] and ['and'] gives [None]; it is
    never a list. *)
Theorem result_is_str_or_bool (marker : marker_tree) (v : value)
    (environments : gmap string env_value) (tmpl : templates) :
  simplify marker environments tmpl = Ok v →
  is_bool_or_str v = true
  ∨ (v = VNone ∧ ∃ s, marker = MStr s ∧ s ≠ "or" ∧ s ≠ "and").
Proof.
  assert (Hrender : ∀ dnf, dnf_render dnf = Ok v → is_bool_or_str v = true).
  { intros dnf. unfold dnf_render. destruct dnf as [|d1 [|d2 dnf]].
    - by intros [= <-].
    - destruct (existsb is_True [d1]); [by intros [= <-]|].
      destruct (str_join " and " d1); [|done]. by intros [= <-].
    - destruct (existsb is_True (d1 :: d2 :: dnf)); [by intros [= <-]|].
      destruct (mapM _ _); [|done]. cbn [mbind result_bind].
      destruct (str_join " or " _); [|done]. by intros [= <-]. }
  assert (Hlist : ∀ l, simplify (MList l) environments tmpl = Ok v →
                       is_bool_or_str v = true).
  { intros l. rewrite simplify_MList. destruct (mapM _ l); [|done].
    cbn [mbind result_bind]. apply Hrender. }
  destruct marker as [|l|s|b|var op val|l].
  - intros [= <-]. by left.
  - rewrite simplify_MMarker. left. by apply (Hlist l).
  - cbn [simplify_marker_to_rpm_condition].
    destruct (String.eqb_spec s "or") as [->|Hor]; [intros [= <-]; by left|].
    destruct (String.eqb_spec s "and") as [->|Hand]; [intros [= <-]; by left|].
    intros [= <-]. right. split; [done|]. by exists s.
  - intros [= <-]. by left.
  - cbn [simplify_marker_to_rpm_condition]. intros H. left.
    destruct (environments !! var).
    + destruct (Marker_parse var op val); [|done]. cbn [mbind result_bind] in H.
      destruct (match e with EStr _ => _ | EList _ => _ end) as [evs|]; [|done].
      cbn [mbind result_bind] in H.
      repeat case_match; try (by injection H as <-).
      destruct (_single_marker_to_rpm_condition _ _ _); [|done]. by injection H as <-.
    + destruct (_single_marker_to_rpm_condition _ _ _); [|done]. by injection H as <-.
  - left. by apply (Hlist l).
Qed.

End MoreEvaluator.

(** ** Beyond the specification: rendering the surviving clauses *)

Lemma elem_of_slice {A : Type} (l : list A) (start : Z) (last : option nat) (x : A) :
  x ∈ slice l start last → x ∈ l.
Proof.
  unfold slice. intros Hx.
  assert (Hdrop : x ∈ drop (Z.to_nat start) l).
  { destruct last as [e|]; [|done].
    rewrite <- (take_drop (e - Z.to_nat start) (drop (Z.to_nat start) l)).
    apply elem_of_app. by left. }
  rewrite <- (take_drop (Z.to_nat start) l). apply elem_of_app. by right.
Qed.

Lemma dnf_clauses_elements (marker : list marker_tree) (simple cl : list value) (v : value) :
  cl ∈ dnf_clauses marker simple → v ∈ cl → v ∈ simple ∧ is_True v = false.
Proof.
  unfold dnf_clauses. intros (bl & -> & _)%list_elem_of_fmap.
  rewrite list_elem_of_In, filter_In, <- list_elem_of_In.
  intros [Hv [_ HT]%andb_true_iff]. split; [by eapply elem_of_slice|].
  by apply negb_true_iff.
Qed.

Lemma strings_of_values (cl : list value) :
  Forall (fun v => is_bool_or_str v = true ∧ is_True v = false ∧ is_False v = false) cl →
  ∃ ss, cl = map VStr ss.
Proof.
  induction 1 as [|v cl (Hv & HT & HF) _ [ss ->]]; [by exists []|].
  destruct v as [|[]|s|]; try done. by exists (s :: ss).
Qed.

Lemma lists_of_strings (cls : list (list value)) :
  Forall (fun cl => ∃ ss, cl = map VStr ss) cls → ∃ sss, cls = map (map VStr) sss.
Proof.
  induction 1 as [|cl cls [ss ->] _ [sss ->]]; [by exists []|]. by exists (ss :: sss).
Qed.

(** On booleans and strings the surviving clauses hold strings only. *)
Lemma dnf_promote_strings (marker : list marker_tree) (simple : list value) :
  Forall (fun v => is_bool_or_str v = true) simple →
  ∃ sss, dnf_promote (dnf_clauses marker simple) = map spec_promote (map (map VStr) sss).
Proof.
  intros Hsimple. unfold dnf_promote.
  destruct (lists_of_strings
              (List.filter (fun cl => negb (existsb is_False cl)) (dnf_clauses marker simple)))
    as [sss ->]; [|by exists sss].
  apply Forall_forall. intros cl.
  rewrite list_elem_of_In, filter_In, <- list_elem_of_In.
  intros [Hcl Hnf]. apply strings_of_values, Forall_forall. intros v Hv.
  destruct (dnf_clauses_elements _ _ _ _ Hcl Hv) as [Hin HT].
  split; [by apply (proj1 (Forall_forall _ _) Hsimple)|]. split; [done|].
  apply negb_true_iff in Hnf.
  destruct (is_False v) eqn:HF; [|done].
  assert (existsb is_False cl = true); [|congruence].
  apply existsb_exists. exists v. by rewrite <- list_elem_of_In.
Qed.

Lemma promoted_True (sss : list (list string)) :
  existsb is_True (map spec_promote (map (map VStr) sss))
  = existsb (fun ss => bool_decide (ss = [])) sss.
Proof.
  induction sss as [|ss sss IH]; [done|]. cbn [map existsb]. rewrite IH.
  by destruct ss as [|s1 [|s2 ss]].
Qed.

Lemma promoted_items (sss : list (list string)) :
  Forall (fun ss => ss ≠ []) sss →
  mapM (fun mk => match mk with
                  | VList _ => VStr <$> str_join " and " mk
                  | _ => Ok mk
                  end) (map spec_promote (map (map VStr) sss))
  = Ok (map VStr (map (String.concat " and ") sss)).
Proof.
  induction 1 as [|ss sss Hss _ IH]; [done|]. cbn [map mapM]. rewrite IH.
  destruct ss as [|s1 [|s2 ss]]; [done|done|].
  cbn [spec_promote map]. unfold str_join.
  change (VStr s1 :: VStr s2 :: map VStr ss) with (map VStr (s1 :: s2 :: ss)).
  by rewrite mapM_as_str.
Qed.

Lemma no_empty_clause (sss : list (list string)) :
  existsb (fun ss => bool_decide (ss = [])) sss = false ↔ Forall (fun ss => ss ≠ []) sss.
Proof.
  induction sss as [|ss sss IH]; cbn [existsb].
  - split; [constructor|done].
  - rewrite orb_false_iff, IH, Forall_cons, bool_decide_eq_false. done.
Qed.

(** The returned expression, for surviving clauses of strings. *)
Lemma dnf_render_strings (sss : list (list string)) :
  dnf_render (map spec_promote (map (map VStr) sss)) =
    match sss with
    | [] => Ok (VBool false)
    | _ =>
        if existsb (fun ss => bool_decide (ss = [])) sss then Ok (VBool true)
        else match sss with
             | [[s]] => Ok (VStr (String.concat " and " (chars s)))
             | [ss] => Ok (VStr (String.concat " and " ss))
             | _ => Ok (VStr ("(" +:+ String.concat " or "
                                        (map (String.concat " and ") sss) +:+ ")"))
             end
    end.
Proof.
  destruct sss as [|ss1 sss]; [done|].
  unfold dnf_render. rewrite promoted_True.
  change (map spec_promote (map (map VStr) (ss1 :: sss)))
    with (spec_promote (map VStr ss1) :: map spec_promote (map (map VStr) sss)).
  destruct (existsb _ (ss1 :: sss)) eqn:E; [done|].
  apply no_empty_clause in E.
  destruct sss as [|ss2 sss].
  - cbn [map]. destruct ss1 as [|s1 [|s2 ss1]].
    + by inversion E.
    + reflexivity.
    + cbn [spec_promote map]. unfold str_join.
      change (VStr s1 :: VStr s2 :: map VStr ss1) with (map VStr (s1 :: s2 :: ss1)).
      by rewrite mapM_as_str.
  - change (spec_promote (map VStr ss1) :: map spec_promote (map (map VStr) (ss2 :: sss)))
      with (map spec_promote (map (map VStr) (ss1 :: ss2 :: sss))).
    rewrite (promoted_items _ E). cbn [mbind result_bind]. unfold str_join.
    rewrite mapM_as_str. cbn [mbind result_bind].
    by destruct ss1 as [|s1 [|s2 ss1]].
Qed.

(** X12.  The reduction does not fail on booleans and strings: whatever the
    list of the group, it returns a boolean or a string ([str.join] never
    sees a boolean, since the [True]s are dropped and a clause with a
    [False] is discarded). *)
Theorem reduce_dnf_total_on_str_and_bool (marker : list marker_tree) (simple : list value) :
  Forall (fun v => is_bool_or_str v = true) simple →
  ∃ v, reduce_dnf marker simple = Ok v ∧ is_bool_or_str v = true.
Proof.
  intros Hsimple. unfold reduce_dnf.
  destruct (dnf_promote_strings marker simple Hsimple) as [sss ->].
  rewrite dnf_render_strings.
  destruct sss as [|ss1 sss]; [by eexists|].
  destruct (existsb _ (ss1 :: sss)); [by eexists|].
  destruct sss as [|ss2 sss], ss1 as [|s1 [|s2 ss1]]; by eexists.
Qed.

(** ** Beyond the specification: the evaluator on a group *)

Lemma dnf_render_rendered (sss : list (list string)) :
  dnf_render (map spec_promote (map (map VStr) sss)) = Ok (rendered sss).
Proof.
  rewrite dnf_render_strings. unfold rendered.
  destruct sss as [|ss1 sss]; [done|].
  destruct (existsb _ (ss1 :: sss)); [done|].
  by destruct sss as [|ss2 sss], ss1 as [|s1 [|s2 ss1]].
Qed.

Lemma spec_clauses_elements (marker : list marker_tree) (simple cl : list value) (v : value) :
  cl ∈ spec_clauses marker simple → v ∈ cl → v ∈ simple.
Proof.
  revert simple cl. induction marker as [|m marker IH]; intros [|w simple] cl; cbn [spec_clauses].
  - intros ->%list_elem_of_singleton Hv. by apply elem_of_nil in Hv.
  - intros ->%list_elem_of_singleton Hv. by apply elem_of_nil in Hv.
  - intros ->%list_elem_of_singleton Hv. by apply elem_of_nil in Hv.
  - destruct (marker_str_eq "or" m).
    + intros [->|Hcl]%elem_of_cons Hv; [by apply elem_of_nil in Hv|].
      apply list_elem_of_further. by apply (IH simple cl).
    + destruct (spec_clauses marker simple) as [|cl' cls] eqn:E.
      * intros ->%list_elem_of_singleton ->%list_elem_of_singleton. apply list_elem_of_here.
      * intros [->|Hcl]%elem_of_cons Hv.
        -- apply elem_of_cons in Hv as [->|Hv]; [apply list_elem_of_here|].
           apply list_elem_of_further, (IH simple cl'); [|done].
           rewrite E. apply list_elem_of_here.
        -- apply list_elem_of_further, (IH simple cl); [|done].
           rewrite E. by apply list_elem_of_further.
Qed.

(** On booleans and strings the surviving clauses hold strings only. *)
Lemma spec_surviving_strings (marker : list marker_tree) (simple : list value) :
  Forall (fun v => is_bool_or_str v = true) simple →
  ∃ sss, spec_surviving marker simple = map (map VStr) sss.
Proof.
  intros Hsimple. apply lists_of_strings, Forall_forall. intros cl.
  unfold spec_surviving. rewrite list_elem_of_In, filter_In, <- list_elem_of_In.
  intros [(raw & -> & Hraw)%list_elem_of_fmap Hnf].
  apply strings_of_values, Forall_forall. intros v Hv.
  pose proof (spec_clean_no_True _ _ Hv) as HT.
  assert (Hin : v ∈ raw).
  { unfold spec_clean in Hv. by apply list_elem_of_In, filter_In, proj1, list_elem_of_In in Hv. }
  split; [|split; [done|]].
  - apply (proj1 (Forall_forall _ _) Hsimple). by apply (spec_clauses_elements marker simple raw).
  - apply negb_true_iff in Hnf. destruct (is_False v) eqn:HF; [|done].
    assert (existsb is_False (spec_clean raw) = true); [|congruence].
    apply existsb_exists. exists v. by rewrite <- list_elem_of_In.
Qed.

Lemma filter_nil_existsb {A : Type} (f : A → bool) (l : list A) :
  List.filter f l = [] ↔ existsb f l = false.
Proof.
  induction l as [|x l IH]; cbn [List.filter existsb]; [done|].
  destruct (f x); [done|]. by rewrite IH.
Qed.

Lemma spec_clean_False (cl : list value) :
  existsb is_False (spec_clean cl) = existsb is_False cl.
Proof.
  unfold spec_clean. induction cl as [|v cl IH]; [done|]. cbn [List.filter existsb].
  destruct v as [|[]|s|l]; cbn [str_eq is_True negb andb existsb is_False orb]; try done.
  destruct (String.eqb s "and"); cbn [negb andb existsb is_False orb]; done.
Qed.

Lemma spec_clauses_nonempty (marker : list marker_tree) (simple : list value) :
  spec_clauses marker simple ≠ [].
Proof.
  destruct marker as [|m marker], simple as [|v simple]; cbn [spec_clauses]; try done.
  destruct (marker_str_eq "or" m); [done|]. by destruct (spec_clauses marker simple).
Qed.

(** Without ['or'] in the list there is one clause, the whole sequence. *)
Lemma spec_clauses_conjunction (marker : list marker_tree) (simple : list value) :
  length marker = length simple →
  (∀ x, x ∈ marker → marker_str_eq "or" x = false) →
  spec_clauses marker simple = [simple].
Proof.
  revert simple. induction marker as [|m marker IH]; intros [|v simple] Hlen Hno; try done.
  cbn [spec_clauses]. rewrite (Hno m) by apply list_elem_of_here.
  rewrite IH; [done|by injection Hlen|].
  intros x Hx. by apply Hno, list_elem_of_further.
Qed.

Lemma mapM_elem {A B : Type} (f : A → result B) (l : list A) (bs : list B) (a : A) (b : B) :
  mapM f l = Ok bs → a ∈ l → f a = Ok b → b ∈ bs.
Proof.
  revert bs. induction l as [|x l IH]; intros bs Hm Ha Hb; [by apply elem_of_nil in Ha|].
  cbn [mapM] in Hm. destruct (f x) as [y|] eqn:Ex; [|done]. cbn [mbind result_bind] in Hm.
  destruct (mapM f l) as [ys|]; [|done]. injection Hm as <-.
  apply elem_of_cons in Ha as [->|Ha].
  - rewrite Hb in Ex. injection Ex as ->. apply list_elem_of_here.
  - apply list_elem_of_further. by apply IH.
Qed.

Lemma mapM_all_Ok {A B : Type} (f : A → result B) (l : list A) :
  (∀ a, a ∈ l → ∃ b, f a = Ok b) → ∃ bs, mapM f l = Ok bs.
Proof.
  intros Hall. destruct (all_Ok_Forall2 f l Hall) as [bs Hbs].
  exists bs. by apply mapM_Forall2.
Qed.

Lemma mapM_Ok_Forall2 {A B : Type} (f : A → result B) (l : list A) (bs : list B) :
  mapM f l = Ok bs → Forall2 (fun a b => f a = Ok b) l bs.
Proof.
  revert bs. induction l as [|x l IH]; intros bs Hm; cbn [mapM] in Hm.
  - injection Hm as <-. constructor.
  - destruct (f x) as [y|] eqn:Ex; [|done]. cbn [mbind result_bind] in Hm.
    destruct (mapM f l) as [ys|]; [|done]. injection Hm as <-.
    constructor; [done|by apply IH].
Qed.

Lemma mapM_ext_Forall {A B : Type} (f g : A → result B) (l : list A) :
  Forall (fun a => f a = g a) l → mapM f l = mapM g l.
Proof. induction 1 as [|a l Ha _ IH]; [done|]. cbn [mapM]. by rewrite Ha, IH. Qed.

Lemma marker_tree_nested_ind (P : marker_tree → Prop) :
  P MNone →
  (∀ l, Forall P l → P (MMarker l)) →
  (∀ s, P (MStr s)) →
  (∀ b, P (MBool b)) →
  (∀ variable op value, P (MTuple variable op value)) →
  (∀ l, Forall P l → P (MList l)) →
  ∀ marker, P marker.
Proof.
  intros HNone HMarker HStr HBool HTuple HList.
  fix IH 1. intros [|l|s|b|variable op value|l].
  - exact HNone.
  - apply HMarker. induction l as [|mk l IHl]; constructor; [apply IH|apply IHl].
  - apply HStr.
  - apply HBool.
  - apply HTuple.
  - apply HList. induction l as [|mk l IHl]; constructor; [apply IH|apply IHl].
Qed.

Lemma marker_variables_elem (l : list marker_tree) (mk : marker_tree) (variable : string) :
  mk ∈ l → variable ∈ marker_variables mk → variable ∈ marker_variables (MList l).
Proof.
  induction l as [|x l IH]; intros Hmk Hv; [by apply elem_of_nil in Hmk|].
  change (marker_variables (MList (x :: l)))
    with (marker_variables x ++ marker_variables (MList l)).
  apply elem_of_app. apply elem_of_cons in Hmk as [->|Hmk]; [by left|right; by apply IH].
Qed.

Lemma constant_clauses_elements (marker : list marker_tree) (simple : list value) :
  Forall2 constant_element marker simple →
  Forall (Forall (fun v => v = VStr "and" ∨ ∃ b, v = VBool b)) (spec_clauses marker simple).
Proof.
  induction 1 as [|m v marker simple Hmv _ IH]; cbn [spec_clauses].
  - repeat constructor.
  - destruct Hmv as [[-> ->]|[[-> ->]|[Hm [b ->]]]].
    + cbn [marker_str_eq String.eqb Ascii.eqb Bool.eqb andb].
      destruct (spec_clauses marker simple) as [|cl cls];
        [constructor; [constructor; [by left | constructor] | constructor]|].
      inversion IH; subst. constructor; [|done]. constructor; [by left|done].
    + cbn [marker_str_eq String.eqb Ascii.eqb Bool.eqb andb]. by constructor.
    + rewrite Hm.
      destruct (spec_clauses marker simple) as [|cl cls];
        [constructor; [constructor; [right; by exists b | constructor] | constructor]|].
      inversion IH; subst. constructor; [|done]. constructor; [right; by exists b|done].
Qed.

Lemma constant_clause_clean (cl : list value) :
  Forall (fun v => v = VStr "and" ∨ ∃ b, v = VBool b) cl →
  existsb is_False cl = false → spec_clean cl = [].
Proof.
  unfold spec_clean. induction 1 as [|v cl Hv _ IH]; [done|].
  cbn [existsb]. intros [Hv' Hcl]%orb_false_iff.
  destruct Hv as [->|[[] ->]]; [| |done]; cbn; by apply IH.
Qed.

Lemma or_of_ands_clauses (marker : list marker_tree) (simple : list value) :
  Forall2 constant_element marker simple →
  ∀ acc, or_of_ands simple acc =
         match spec_clauses marker simple with
         | cl :: cls =>
             (acc && negb (existsb is_False cl))
             || existsb (fun cl => negb (existsb is_False cl)) cls
         | [] => acc
         end.
Proof.
  induction 1 as [|m v marker simple Hmv _ IH]; intros acc; cbn [spec_clauses or_of_ands].
  - cbn. by rewrite andb_true_r, orb_false_r.
  - pose proof (spec_clauses_nonempty marker simple) as Hne.
    destruct Hmv as [[-> ->]|[[-> ->]|[Hm [b ->]]]].
    + cbn [marker_str_eq str_eq String.eqb Ascii.eqb Bool.eqb andb]. rewrite IH.
      by destruct (spec_clauses marker simple) as [|cl cls].
    + cbn [marker_str_eq str_eq String.eqb Ascii.eqb Bool.eqb andb existsb negb]. rewrite IH.
      destruct (spec_clauses marker simple) as [|cl cls]; [done|].
      cbn [existsb andb]. by rewrite andb_true_r.
    + rewrite Hm. cbn [str_eq]. rewrite IH.
      destruct (spec_clauses marker simple) as [|cl cls]; [done|].
      cbn [existsb is_False]. by destruct acc, b.
Qed.

Lemma existsb_map_clean (cls : list (list value)) :
  existsb (fun cl => negb (existsb is_False cl)) (map spec_clean cls)
  = existsb (fun cl => negb (existsb is_False cl)) cls.
Proof.
  induction cls as [|cl cls IH]; [done|]. cbn [map existsb].
  by rewrite spec_clean_False, IH.
Qed.

Section MoreGroup.

Context (Marker_parse : string → string → string → result unit).
Context (Marker_evaluate : string → string → string → gmap string env_value → result bool).
Context (format_arch : string → string → format_result).
Abbreviation simplify :=
  (simplify_marker_to_rpm_condition Marker_parse Marker_evaluate format_arch).

Lemma simplify_group (l : list marker_tree) (simple : list value)
    (environments : gmap string env_value) (tmpl : templates) :
  mapM (fun mk => simplify mk environments tmpl) l = Ok simple →
  simplify (MList l) environments tmpl
  = dnf_render (map spec_promote (spec_surviving l simple)).
Proof.
  intros Hsimple. rewrite simplify_MList, Hsimple. cbn [mbind result_bind].
  apply reduce_dnf_surviving. by apply mapM_length in Hsimple.
Qed.

(** X13.  The result of a group whose elements evaluate to booleans and
    strings, from its surviving clauses (which then hold strings only):
    [false] without a clause, [true] with an emptied clause, one clause of
    several strings joined with [" and "], one clause of one string joined
    with [" and "] character by character, and two or more clauses in
    parentheses, joined with [" or "] in the order of the list, each one
    joined with [" and "]. *)
Theorem group_result_from_clauses (l : list marker_tree) (simple : list value)
    (environments : gmap string env_value) (tmpl : templates) :
  mapM (fun mk => simplify mk environments tmpl) l = Ok simple →
  Forall (fun v => is_bool_or_str v = true) simple →
  ∃ sss, spec_surviving l simple = map (map VStr) sss
         ∧ simplify (MList l) environments tmpl = Ok (rendered sss).
Proof.
  intros Hsimple Hshape.
  destruct (spec_surviving_strings l simple Hshape) as [sss Hsss].
  exists sss. split; [done|].
  by rewrite (simplify_group _ _ _ _ Hsimple), Hsss, dnf_render_rendered.
Qed.

(** X14.  Constant folding is sound: a group whose sub-expressions all
    fold to booleans gives the boolean of the formula, ["and"] binding
    tighter than ["or"] (and an empty conjunction being true). *)
Theorem constant_group_folds (l : list marker_tree)
    (environments : gmap string env_value) (tmpl : templates) :
  (∀ mk, mk ∈ l →
     mk = MStr "and" ∨ mk = MStr "or"
     ∨ ∃ b, simplify mk environments tmpl = Ok (VBool b)) →
  ∃ simple,
    mapM (fun mk => simplify mk environments tmpl) l = Ok simple
    ∧ simplify (MList l) environments tmpl = Ok (VBool (or_of_ands simple true)).
Proof.
  intros Hl.
  assert (∃ simple, mapM (fun mk => simplify mk environments tmpl) l = Ok simple
                    ∧ Forall2 constant_element l simple) as (simple & Hsimple & Hconst).
  { induction l as [|mk l IH]; [exists []; split; [done|constructor]|].
    destruct IH as (simple & Hsimple & Hconst).
    { intros x Hx. by apply Hl, list_elem_of_further. }
    cbn [mapM]. rewrite Hsimple.
    destruct (Hl mk) as [->|[->|[b Hb]]]; [apply list_elem_of_here| | |].
    - exists (VStr "and" :: simple). split; [done|]. constructor; [by left|done].
    - exists (VStr "or" :: simple). split; [done|]. constructor; [right; by left|done].
    - rewrite Hb. exists (VBool b :: simple). split; [done|].
      constructor; [|done]. right; right. split; [|by exists b].
      by apply (simplify_bool_not_or _ _ _ _ _ _ _ Hb). }
  exists simple. split; [done|].
  rewrite (simplify_group _ _ _ _ Hsimple), (or_of_ands_clauses _ _ Hconst).
  pose proof (constant_clauses_elements _ _ Hconst) as Helems.
  pose proof (spec_clauses_nonempty l simple) as Hne.
  assert (Hsurv : ∀ cl, cl ∈ spec_surviving l simple → cl = []).
  { intros cl. unfold spec_surviving.
    rewrite list_elem_of_In, filter_In, <- list_elem_of_In.
    intros [(raw & -> & Hraw)%list_elem_of_fmap Hnf].
    apply constant_clause_clean; [by apply (proj1 (Forall_forall _ _) Helems)|].
    apply negb_true_iff in Hnf. by rewrite spec_clean_False in Hnf. }
  assert (Hex : existsb (fun cl => negb (existsb is_False cl)) (spec_clauses l simple) = false
                ↔ spec_surviving l simple = []).
  { unfold spec_surviving. by rewrite filter_nil_existsb, existsb_map_clean. }
  destruct (spec_clauses l simple) as [|cl cls] eqn:Ecl; [done|].
  change ((true && negb (existsb is_False cl))
          || existsb (fun cl => negb (existsb is_False cl)) cls)
    with (existsb (fun cl => negb (existsb is_False cl)) (cl :: cls)).
  destruct (spec_surviving l simple) as [|c cs] eqn:Es.
  - by rewrite (proj2 Hex eq_refl).
  - rewrite (Hsurv c) by apply list_elem_of_here.
    destruct (existsb _ (cl :: cls)); [done|]. by specialize (proj1 Hex eq_refl).
Qed.

(** X15.  A conjunction with a false member is false: in a group without
    ['or'] whose elements all evaluate, one element that folds to [false]
    makes the result [false], whatever the others are. *)
Theorem conjunction_with_false_is_false (l : list marker_tree)
    (environments : gmap string env_value) (tmpl : templates) :
  (∀ mk, mk ∈ l → mk ≠ MStr "or") →
  (∀ mk, mk ∈ l → ∃ v, simplify mk environments tmpl = Ok v) →
  (∃ mk, mk ∈ l ∧ simplify mk environments tmpl = Ok (VBool false)) →
  simplify (MList l) environments tmpl = Ok (VBool false).
Proof.
  intros Hno Hall (mk & Hmk & Hfalse).
  destruct (mapM_all_Ok _ l Hall) as [simple Hsimple].
  rewrite (simplify_group _ _ _ _ Hsimple).
  assert (spec_surviving l simple = []) as ->; [|done].
  unfold spec_surviving. rewrite spec_clauses_conjunction.
  - cbn [map List.filter]. rewrite spec_clean_False.
    assert (existsb is_False simple = true) as ->; [|done].
    apply existsb_exists. exists (VBool false). split; [|done].
    apply list_elem_of_In. by apply (mapM_elem _ _ _ _ _ Hsimple Hmk Hfalse).
  - by apply mapM_length in Hsimple.
  - intros x Hx. specialize (Hno x Hx). destruct x as [| |s| | |]; try done.
    cbn [marker_str_eq]. destruct (String.eqb_spec s "or") as [->|]; done.
Qed.

End MoreGroup.

(** X16.  A marker none of whose variables is in the environment is
    translated without the marker library: the result is the same whatever
    the library would answer. *)
Theorem unknown_variables_need_no_library
    (parse1 parse2 : string → string → string → result unit)
    (evaluate1 evaluate2 : string → string → string → gmap string env_value → result bool)
    (format_arch : string → string → format_result)
    (environments : gmap string env_value) (tmpl : templates) (marker : marker_tree) :
  (∀ variable, variable ∈ marker_variables marker → environments !! variable = None) →
  simplify_marker_to_rpm_condition parse1 evaluate1 format_arch marker environments tmpl
  = simplify_marker_to_rpm_condition parse2 evaluate2 format_arch marker environments tmpl.
Proof.
  induction marker as [|l IH|s|b|variable op value|l IH] using marker_tree_nested_ind;
    intros Hvars; try reflexivity.
  - rewrite !simplify_MMarker, !simplify_MList.
    rewrite (mapM_ext_Forall
               (fun mk => simplify_marker_to_rpm_condition parse1 evaluate1 format_arch
                            mk environments tmpl)
               (fun mk => simplify_marker_to_rpm_condition parse2 evaluate2 format_arch
                            mk environments tmpl)); [done|].
    apply Forall_forall. intros mk Hmk. apply (proj1 (Forall_forall _ _) IH mk Hmk).
    intros variable Hv. apply Hvars. by apply (marker_variables_elem l mk).
  - cbn [simplify_marker_to_rpm_condition].
    by rewrite (Hvars variable) by apply list_elem_of_here.
  - rewrite !simplify_MList.
    rewrite (mapM_ext_Forall
               (fun mk => simplify_marker_to_rpm_condition parse1 evaluate1 format_arch
                            mk environments tmpl)
               (fun mk => simplify_marker_to_rpm_condition parse2 evaluate2 format_arch
                            mk environments tmpl)); [done|].
    apply Forall_forall. intros mk Hmk. apply (proj1 (Forall_forall _ _) IH mk Hmk).
    intros variable Hv. apply Hvars. by apply (marker_variables_elem l mk).
Qed.

(** ** The further properties at concrete inputs *)

Lemma bare_package_iff_nothing_recognized_witness :
  (∀ s, s ∈ [{| operator := "=>"; version := "1.0" |}] → operator s ∉ specifier_operators)
  ∧ specifier_to_rpm_version "foo" [{| operator := "=>"; version := "1.0" |}] = "foo".
Proof.
  assert (H : ∀ s, s ∈ [{| operator := "=>"; version := "1.0" |}] →
                   operator s ∉ specifier_operators).
  { intros s Hs. apply elem_of_cons in Hs as [->|Hs]; [not_in_list|].
    by apply elem_of_nil in Hs. }
  split; [exact H|].
  exact (proj2 (bare_package_iff_nothing_recognized "foo" _) H).
Defined.

Lemma specifier_translation_of_append_witness :
  specifier_to_rpm_version "foo"
    ([{| operator := ">="; version := "1.0" |}] ++ [{| operator := "<"; version := "2.0" |}])
  = "foo >= 1.0" +:+ ", " +:+ "foo < 2.0".
Proof.
  apply (proj1 (specifier_translation_of_append "foo"
                  [{| operator := ">="; version := "1.0" |}]
                  [{| operator := "<"; version := "2.0" |}])).
  - exists {| operator := ">="; version := "1.0" |}. split; in_list.
  - exists {| operator := "<"; version := "2.0" |}. split; in_list.
Defined.

Lemma wildcard_translated_as_base_witness :
  char_in (Ascii.ascii_of_nat 52) ".*" = false
  ∧ specifier_to_rpm_version "foo" [{| operator := "=="; version := "1.4.*" |}]
    = specifier_to_rpm_version "foo" [{| operator := "=="; version := "1.4" |}].
Proof.
  split; [reflexivity|].
  exact (wildcard_translated_as_base "foo" "==" "1." (Ascii.ascii_of_nat 52) [] [] eq_refl).
Defined.

Lemma leaf_never_a_connective_witness :
  run_leaf ("python_version", ">=", "3.8") example_templates = Ok "pythonabi >= 3.8"
  ∧ "pythonabi >= 3.8" ≠ "and" ∧ "pythonabi >= 3.8" ≠ "or".
Proof.
  split; [reflexivity|].
  exact (leaf_never_a_connective text_format example_templates
           "python_version" ">=" "3.8" "pythonabi >= 3.8" eq_refl).
Defined.

Lemma leaf_in_one_clause_per_word_witness :
  run_leaf ("python_version", "in", "3.8 3.9") example_templates
  = Ok "(pythonabi = 3.8 or pythonabi = 3.9)"
  ∧ run_leaf ("platform_machine", "in", "x86_64 aarch64") example_templates
    = Ok "if (arch(x86_64) or arch(aarch64))"
  ∧ run_leaf ("platform_machine", "in", "x86_64 aarch64") name_templates
    = Raise (FormatError (FormatKeyError "name")).
Proof.
  split; [|split].
  - apply (proj1 (leaf_in_one_clause_per_word text_format example_templates
                    "python_version" "pythonabi" ["3.8"; "3.9"]
                    ltac:(repeat constructor))).
    reflexivity.
  - apply (proj1 (proj2 (leaf_in_one_clause_per_word text_format example_templates
                           "python_version" "pythonabi" ["x86_64"; "aarch64"]
                           ltac:(repeat constructor)))
             ["arch(x86_64)"; "arch(aarch64)"]).
    repeat constructor.
  - apply (proj2 (proj2 (leaf_in_one_clause_per_word text_format name_templates
                           "python_version" "pythonabi" ["x86_64"; "aarch64"]
                           ltac:(repeat constructor)))
             [] "x86_64" ["aarch64"]); [reflexivity | | reflexivity].
    intros x Hx. by apply elem_of_nil in Hx.
Defined.

Lemma translators_agree_witness :
  run_leaf ("python_version", "!=", "3.8") example_templates
  = Ok (specifier_to_rpm_version "pythonabi" [{| operator := "!="; version := "3.8" |}])
  ∧ specifier_to_rpm_version "pythonabi" [{| operator := "!="; version := "3.8" |}]
    = "(pythonabi < 3.8 or pythonabi > 3.8)".
Proof.
  split; [|reflexivity].
  apply (translators_agree_outside_compatible_release text_format example_templates
           "python_version" "pythonabi" "!=" "3.8"); [reflexivity | in_list | reflexivity].
Defined.

Lemma single_value_is_decided_witness :
  run (MTuple "sys_platform" "==" "win32") {[ "sys_platform" := EStr "linux" ]}
      example_templates = Ok (VBool false).
Proof.
  apply (single_value_is_decided text_parse text_evaluate text_format
           "sys_platform" "==" "win32" "linux" false); reflexivity.
Defined.

Lemma library_exceptions_propagate_witness :
  run (MTuple "python_version" "=~" "3") {[ "python_version" := EList [] ]} example_templates
  = Raise (MarkerError "invalid marker")
  ∧ simplify_marker_to_rpm_condition text_parse strict_evaluate text_format
      (MTuple "python_version" "==" "3.9") {[ "python_version" := EList ["3.9"; ""; "3.8"] ]}
      example_templates
    = Raise (MarkerError "invalid version").
Proof.
  split.
  - apply (proj1 (library_exceptions_propagate text_parse text_evaluate text_format
                    "python_version" "=~" "3" (MarkerError "invalid marker")
                    {[ "python_version" := EList [] ]} example_templates) (EList []));
      reflexivity.
  - apply (proj1 (proj2 (library_exceptions_propagate text_parse strict_evaluate text_format
                    "python_version" "==" "3.9" (MarkerError "invalid version")
                    {[ "python_version" := EList ["3.9"; ""; "3.8"] ]} example_templates))
             ["3.9"] "" ["3.8"]); try reflexivity.
    intros x Hx. apply elem_of_cons in Hx as [->|Hx]; [by exists true|].
    by apply elem_of_nil in Hx.
Defined.

Lemma extras_always_decided_witness :
  run (MTuple "extras" "==" "b") {[ "extras" := EList ["a"; "b"] ]} example_templates
  = Ok (VBool true)
  ∧ run (MTuple "extras" "==" "c") {[ "extras" := EList ["a"; "b"] ]} example_templates
    = Ok (VBool false).
Proof.
  split.
  - apply (extras_always_decided text_parse text_evaluate text_format "==" "b" ["a"; "b"]);
      [reflexivity | reflexivity | |].
    + intros c Hc. repeat (apply elem_of_cons in Hc as [->|Hc]; [by eexists|]).
      by apply elem_of_nil in Hc.
    + right. exists "b". split; [in_list | reflexivity].
  - apply (extras_always_decided text_parse text_evaluate text_format "==" "c" ["a"; "b"]);
      [reflexivity | reflexivity | | discriminate |].
    + intros c Hc. repeat (apply elem_of_cons in Hc as [->|Hc]; [by eexists|]).
      by apply elem_of_nil in Hc.
    + intros c Hc. repeat (apply elem_of_cons in Hc as [->|Hc]; [reflexivity|]).
      by apply elem_of_nil in Hc.
Defined.

Lemma result_is_str_or_bool_witness :
  run (MTuple "platform_release" ">=" "5") ∅ example_templates = Ok (VStr "kernel >= 5")
  ∧ (is_bool_or_str (VStr "kernel >= 5") = true
     ∨ (VStr "kernel >= 5" = VNone
        ∧ ∃ s, MTuple "platform_release" ">=" "5" = MStr s ∧ s ≠ "or" ∧ s ≠ "and")).
Proof.
  split; [reflexivity|].
  exact (result_is_str_or_bool text_parse text_evaluate text_format
           (MTuple "platform_release" ">=" "5") (VStr "kernel >= 5") ∅ example_templates
           eq_refl).
Defined.

Lemma reduce_dnf_total_witness :
  Forall (fun v => is_bool_or_str v = true) [VStr "kernel >= 5"; VStr "and"; VBool true]
  ∧ ∃ v, reduce_dnf [MTuple "platform_release" ">=" "5"; MStr "and"; MBool true]
                    [VStr "kernel >= 5"; VStr "and"; VBool true] = Ok v
         ∧ is_bool_or_str v = true.
Proof.
  assert (H : Forall (fun v => is_bool_or_str v = true)
                     [VStr "kernel >= 5"; VStr "and"; VBool true])
    by (repeat constructor).
  split; [exact H|].
  exact (reduce_dnf_total_on_str_and_bool _ _ H).
Defined.

Lemma group_result_from_clauses_witness :
  run (MList [MTuple "platform_release" ">=" "5"; MStr "or";
              MTuple "python_version" ">=" "3.8"; MStr "and";
              MTuple "python_version" "<" "4"]) ∅ example_templates
  = Ok (VStr "(kernel >= 5 or pythonabi >= 3.8 and pythonabi < 4)")
  ∧ ∃ sss,
      spec_surviving
        [MTuple "platform_release" ">=" "5"; MStr "or";
         MTuple "python_version" ">=" "3.8"; MStr "and"; MTuple "python_version" "<" "4"]
        [VStr "kernel >= 5"; VStr "or"; VStr "pythonabi >= 3.8"; VStr "and";
         VStr "pythonabi < 4"]
      = map (map VStr) sss
      ∧ run (MList [MTuple "platform_release" ">=" "5"; MStr "or";
                    MTuple "python_version" ">=" "3.8"; MStr "and";
                    MTuple "python_version" "<" "4"]) ∅ example_templates
        = Ok (rendered sss).
Proof.
  split; [reflexivity|].
  apply (group_result_from_clauses text_parse text_evaluate text_format);
    [reflexivity | repeat constructor].
Defined.

Lemma constant_group_folds_witness :
  run (MList [MBool true; MStr "and"; MBool false; MStr "or"; MNone]) ∅ example_templates
  = Ok (VBool true)
  ∧ ∃ simple,
      mapM (fun mk => run mk ∅ example_templates)
           [MBool true; MStr "and"; MBool false; MStr "or"; MNone] = Ok simple
      ∧ run (MList [MBool true; MStr "and"; MBool false; MStr "or"; MNone]) ∅ example_templates
        = Ok (VBool (or_of_ands simple true)).
Proof.
  split; [reflexivity|].
  apply (constant_group_folds text_parse text_evaluate text_format).
  intros mk Hmk.
  repeat (apply elem_of_cons in Hmk as [->|Hmk];
          [first [by left | by (right; left) | right; right; by eexists]|]).
  by apply elem_of_nil in Hmk.
Defined.

Lemma conjunction_with_false_is_false_witness :
  run (MList [MTuple "platform_release" ">=" "5"; MStr "and"; MBool false]) ∅
      example_templates = Ok (VBool false).
Proof.
  apply (conjunction_with_false_is_false text_parse text_evaluate text_format).
  - intros mk Hmk. repeat (apply elem_of_cons in Hmk as [->|Hmk]; [discriminate|]).
    by apply elem_of_nil in Hmk.
  - intros mk Hmk. repeat (apply elem_of_cons in Hmk as [->|Hmk]; [by eexists|]).
    by apply elem_of_nil in Hmk.
  - exists (MBool false). split; [in_list | reflexivity].
Defined.

Lemma unknown_variables_need_no_library_witness :
  (∀ variable,
     variable ∈ marker_variables (MMarker [MTuple "platform_release" ">=" "5"]) →
     ({[ "python_version" := EStr "3.9" ]} : gmap string env_value) !! variable = None)
  ∧ run (MMarker [MTuple "platform_release" ">=" "5"]) {[ "python_version" := EStr "3.9" ]}
        example_templates
    = simplify_marker_to_rpm_condition
        (fun _ _ _ => Raise TypeError) (fun _ _ _ _ => Raise TypeError) text_format
        (MMarker [MTuple "platform_release" ">=" "5"]) {[ "python_version" := EStr "3.9" ]}
        example_templates.
Proof.
  assert (H : ∀ variable,
            variable ∈ marker_variables (MMarker [MTuple "platform_release" ">=" "5"]) →
            ({[ "python_version" := EStr "3.9" ]} : gmap string env_value) !! variable = None).
  { intros variable Hv. cbn in Hv. apply elem_of_cons in Hv as [->|Hv]; [reflexivity|].
    by apply elem_of_nil in Hv. }
  split; [exact H|].
  exact (unknown_variables_need_no_library _ _ _ _ _ _ _ _ H).
Defined.
